(** * footy-cast: the prediction engine of [prediction_engine.py]

    A shallow embedding of [FootballPredictor], of the input ranges and the
    outcome banner of its caller [app.py], and the proofs of their
    properties.

    Number model.  The engine computes with binary64 floats; here a float is
    an exact real number ([R]), so rounding error of the arithmetic,
    overflow, underflow and NaN are outside the model.  What the model keeps
    of Python:
    - [1 / x] on Python floats raises [ZeroDivisionError] when [x] is zero:
      [Py.div] returns [None] there, and the two functions that divide by a
      computed value return an [option];
    - [round(x, n)] rounds to [n] decimals, halves to the even neighbour;
    - [scipy.stats.poisson] is defined for rates [mu >= 0] (it answers NaN
      below 0), so every statement about the Poisson based functions takes
      the rates to be non-negative.
    Where a property depends on what binary64 does to the Poisson masses,
    it is stated on the module [Floats]: the two grid functions with the
    library mass and the float product as parameters, so that the statement
    holds for whatever floats they return, and a model of underflow for the
    rates at which the masses vanish.  The exact equality
    [over + under == 100.0] is checked on binary64 itself (module
    [Binary64]). *)

From Stdlib Require Import Reals Lra Lia ZArith List String Permutation Sorted.
From Stdlib Require Import DecimalString.
From Stdlib Require Import Uint63 PrimFloat.
Import ListNotations.
Open Scope R_scope.

(** ** Python numerics *)

Module Py.

(** [x / y] on Python floats: it raises when [y] is 0.  The test is on the
    exact value of the divisor; a float divisor can differ from it by a
    rounding error, so the statements below only rely on divisors that are
    computed exactly (such as [-0.1 + 0.1]) or that stay away from 0. *)
Definition div (x y : R) : option R :=
  if Req_dec_T y 0 then None else Some (x / y).

(** Nearest integer, halves to even (C [rint], the core of [round]). *)
Definition rint (x : R) : Z :=
  let f := Zfloor x in
  let d := x - IZR f in
  if Rlt_dec d (1 / 2) then f
  else if Rlt_dec (1 / 2) d then (f + 1)%Z
  else if Z.even f then f else (f + 1)%Z.

(** [round(x, ndigits)]. *)
Definition round (x : R) (ndigits : nat) : R :=
  IZR (rint (x * 10 ^ ndigits)) / 10 ^ ndigits.

(** [min(a, b)] on two floats: [b] when [b < a], else [a]. *)
Definition min (a b : R) : R := if Rlt_dec b a then b else a.

(** [str(n)] for a non-negative [int]. *)
Definition str_of_nat (n : nat) : string :=
  NilZero.string_of_uint (Nat.to_uint n).

(** The option monad threads [ZeroDivisionError]. *)
Definition bind {A B : Type} (m : option A) (k : A -> option B) : option B :=
  match m with
  | Some a => k a
  | None => None
  end.

End Py.

Notation "x <- m ;; k" := (Py.bind m (fun x => k))
  (at level 61, m at next level, right associativity).
Notation "' p <- m ;; k" := (Py.bind m (fun x => match x with p => k end))
  (at level 61, p pattern, m at next level, right associativity).

(** ** [scipy.stats.poisson] *)

Module Poisson.

(** [poisson.pmf(k, mu)] for an integer [k >= 0]: [exp(-mu) * mu^k / k!].
    At [mu = 0] this is [1] for [k = 0] and [0] above, as scipy answers.
    This is the exact mass: the float scipy returns can differ from it in
    the last bits, and is [0.0] when the mass is too small for binary64
    (module [Floats]). *)
Definition pmf (k : nat) (mu : R) : R :=
  exp (- mu) * mu ^ k / INR (fact k).

(** [pmf(0, mu) + ... + pmf(n, mu)]. *)
Fixpoint pmf_upto (n : nat) (mu : R) : R :=
  match n with
  | O => pmf 0 mu
  | S m => pmf_upto m mu + pmf (S m) mu
  end.

(** [poisson.cdf(x, mu)]: the mass of the integers up to [floor(x)], and [0]
    below the support. *)
Definition cdf (x : R) (mu : R) : R :=
  if Rlt_dec x 0 then 0 else pmf_upto (Z.to_nat (Zfloor x)) mu.

End Poisson.

(** ** Data model *)

(** The [team_data] dictionary: nine numeric entries. *)
Record TeamData : Type := mkTeamData {
  xg : R;
  total_shots : R;
  shots_on_target : R;
  xgot : R;
  xa : R;
  passes_rate : R;
  tackles_rate : R;
  ball_recoveries : R;
  xgot_conceded : R
}.

(** The spec's TeamMetrics: every field non-negative. *)
Definition valid_team_data (d : TeamData) : Prop :=
  0 <= xg d /\ 0 <= total_shots d /\ 0 <= shots_on_target d /\
  0 <= xgot d /\ 0 <= xa d /\ 0 <= passes_rate d /\
  0 <= tackles_rate d /\ 0 <= ball_recoveries d /\ 0 <= xgot_conceded d.

Module WinProbs.
Record t : Type := mk { home_win : R; draw : R; away_win : R }.
End WinProbs.

Module Btts.
Record t : Type := mk { prediction : string; probability : R }.
End Btts.

Module OverUnder.
Record t : Type := mk { over : R; under : R; prediction : string }.
End OverUnder.

Module Scoreline.
Record t : Type := mk { scoreline : string; probability : R }.
End Scoreline.

Module ExpectedGoals.
Record t : Type := mk { home : R; away : R; total : R }.
End ExpectedGoals.

(** The dictionary returned by [predict_match_outcome].  [over_under] is a
    dictionary keyed by the printed threshold; it is kept as the list of its
    items in insertion order. *)
Record MatchPrediction : Type := mkMatchPrediction {
  win_probabilities : WinProbs.t;
  btts : Btts.t;
  over_under : list (string * OverUnder.t);
  scorelines : list Scoreline.t;
  expected_goals : ExpectedGoals.t
}.

(** ** [FootballPredictor] *)

Module FootballPredictor.

(** [self.offensive_weights] *)
Definition w_xg : R := 0.30.
Definition w_total_shots : R := 0.08.
Definition w_shots_on_target : R := 0.12.
Definition w_xgot : R := 0.22.
Definition w_xa : R := 0.13.
Definition w_passes_rate : R := 0.15.

(** [self.defensive_weights] *)
Definition w_xgot_conceded : R := 0.40.
Definition w_tackles_rate : R := 0.30.
Definition w_ball_recoveries : R := 0.30.

Definition calculate_team_strength (team_data : TeamData) : option (R * R) :=
  let offensive_score :=
    xg team_data * w_xg +
    (total_shots team_data / 20) * w_total_shots +
    (shots_on_target team_data / 10) * w_shots_on_target +
    xgot team_data * w_xgot +
    xa team_data * w_xa +
    (passes_rate team_data / 100) * w_passes_rate in
  inv <- Py.div 1 (xgot_conceded team_data + 0.1) ;;
  let defensive_score :=
    inv * w_xgot_conceded +
    (tackles_rate team_data / 100) * w_tackles_rate +
    (ball_recoveries team_data / 100) * w_ball_recoveries in
  Some (offensive_score, defensive_score).

(** Lines 67-74 of [predict_match_outcome]: the two expected-goal scalars.
    [home_advantage] is the local constant [1.15] of the source, taken as an
    argument so that the neutralised engine can be stated too. *)
Definition expected_goal_scalars (home_advantage : R)
    (home_data away_data : TeamData) : option (R * R) :=
  '(home_off, home_def) <- calculate_team_strength home_data ;;
  '(away_off, away_def) <- calculate_team_strength away_data ;;
  inv_away <- Py.div 1 (away_def + 0.5) ;;
  let home_expected_goals := xg home_data * home_advantage * inv_away in
  inv_home <- Py.div 1 (home_def + 0.5) ;;
  let away_expected_goals := xg away_data * inv_home in
  Some (home_expected_goals, away_expected_goals).

(** One pass of the inner loop body of [_calculate_win_probabilities]. *)
Definition wdl_cell (home_xg away_xg : R) (home_goals : nat)
    (acc : R * R * R) (away_goals : nat) : R * R * R :=
  let '(home_win_prob, draw_prob, away_win_prob) := acc in
  let home_goal_prob := Poisson.pmf home_goals home_xg in
  let away_goal_prob := Poisson.pmf away_goals away_xg in
  let scoreline_prob := home_goal_prob * away_goal_prob in
  if (away_goals <? home_goals)%nat then
    (home_win_prob + scoreline_prob, draw_prob, away_win_prob)
  else if (home_goals <? away_goals)%nat then
    (home_win_prob, draw_prob, away_win_prob + scoreline_prob)
  else
    (home_win_prob, draw_prob + scoreline_prob, away_win_prob).

(** The two nested [for ... in range(8)] loops. *)
Definition wdl_buckets (home_xg away_xg : R) : R * R * R :=
  fold_left
    (fun acc home_goals =>
       fold_left (wdl_cell home_xg away_xg home_goals) (seq 0 8) acc)
    (seq 0 8) (0, 0, 0).

(** With the exact masses the total is never 0; with the floats it is 0.0
    when every cell underflows, see [Floats._calculate_win_probabilities_with]. *)
Definition _calculate_win_probabilities (home_xg away_xg : R) : WinProbs.t :=
  let '(home_win_prob, draw_prob, away_win_prob) :=
    wdl_buckets home_xg away_xg in
  let total := home_win_prob + draw_prob + away_win_prob in
  WinProbs.mk
    (Py.round ((home_win_prob / total) * 100) 1)
    (Py.round ((draw_prob / total) * 100) 1)
    (Py.round ((away_win_prob / total) * 100) 1).

(** The defensive factor of [_predict_btts], written twice in the source
    (for [home_data] and for [away_data]). *)
Definition def_factor (xgot_conceded : R) : R :=
  Py.min 1.15 (1 + (xgot_conceded - 1.0) * 0.1).

Definition _predict_btts (home_xg away_xg : R)
    (home_data away_data : TeamData) : Btts.t :=
  let home_scoring_prob := 1 - Poisson.pmf 0 home_xg in
  let away_scoring_prob := 1 - Poisson.pmf 0 away_xg in
  let home_def_factor := def_factor (xgot_conceded home_data) in
  let away_def_factor := def_factor (xgot_conceded away_data) in
  let home_scoring_prob := Py.min 0.99 (home_scoring_prob * away_def_factor) in
  let away_scoring_prob := Py.min 0.99 (away_scoring_prob * home_def_factor) in
  let btts_prob := home_scoring_prob * away_scoring_prob in
  let btts_percentage := Py.round (btts_prob * 100) 1 in
  Btts.mk
    (if Rge_dec btts_percentage 50 then "Yes" else "No")
    btts_percentage.

(** The thresholds of [_predict_over_under], each with the key
    [f'{threshold}'] under which its entry is stored. *)
Definition thresholds : list (R * string) :=
  [(1.5, "1.5"%string); (2.5, "2.5"%string); (3.5, "3.5"%string)].

(** The body of the loop of [_predict_over_under] for one threshold. *)
Definition over_under_entry (total_xg threshold : R) : OverUnder.t :=
  let lambda_param := total_xg in
  let over_prob := 1 - Poisson.cdf (threshold - 0.5) lambda_param in
  let over_percentage := Py.round (over_prob * 100) 1 in
  OverUnder.mk
    over_percentage
    (Py.round (100 - over_percentage) 1)
    (if Rge_dec over_percentage 50 then "Over" else "Under").

Definition _predict_over_under (home_xg away_xg : R)
    : list (string * OverUnder.t) :=
  let total_xg := home_xg + away_xg in
  fold_left
    (fun results t => results ++ [(snd t, over_under_entry total_xg (fst t))])
    thresholds [].

(** [list.sort(key=..., reverse=True)]: a stable sort, largest key first.
    Stability fixes the result, so any stable sort models it; this one
    inserts each element before the first one whose key is not larger. *)
Fixpoint insert_desc {A : Type} (key : A -> R) (x : A) (l : list A) : list A :=
  match l with
  | [] => [x]
  | y :: l' =>
      if Rlt_dec (key x) (key y) then y :: insert_desc key x l'
      else x :: y :: l'
  end.

Definition sort_desc {A : Type} (key : A -> R) (l : list A) : list A :=
  fold_right (insert_desc key) [] l.

(** The entry appended for one cell of the grid of [_predict_scorelines]. *)
Definition scoreline_cell (home_xg away_xg : R) (home_goals away_goals : nat)
    : Scoreline.t :=
  let home_prob := Poisson.pmf home_goals home_xg in
  let away_prob := Poisson.pmf away_goals away_xg in
  let prob := home_prob * away_prob in
  Scoreline.mk
    (Py.str_of_nat home_goals ++ "-" ++ Py.str_of_nat away_goals)
    prob.

(** The two nested [for ... in range(6)] loops. *)
Definition scoreline_probs (home_xg away_xg : R) : list Scoreline.t :=
  fold_left
    (fun acc home_goals =>
       fold_left
         (fun acc away_goals =>
            acc ++ [scoreline_cell home_xg away_xg home_goals away_goals])
         (seq 0 6) acc)
    (seq 0 6) [].

(** The sort key is the exact product here; which cells tie as floats is
    left open in [Floats._predict_scorelines_with]. *)
Definition _predict_scorelines (home_xg away_xg : R) : list Scoreline.t :=
  let sorted := sort_desc Scoreline.probability (scoreline_probs home_xg away_xg) in
  let top_3 := firstn 3 sorted in
  map (fun s => Scoreline.mk (Scoreline.scoreline s)
                  (Py.round (Scoreline.probability s * 100) 1))
      top_3.

Definition predict_match_outcome_with (home_advantage : R)
    (home_data away_data : TeamData) : option MatchPrediction :=
  '(home_expected_goals, away_expected_goals) <-
     expected_goal_scalars home_advantage home_data away_data ;;
  let win_probs :=
    _calculate_win_probabilities home_expected_goals away_expected_goals in
  let btts :=
    _predict_btts home_expected_goals away_expected_goals home_data away_data in
  let over_under :=
    _predict_over_under home_expected_goals away_expected_goals in
  let scorelines :=
    _predict_scorelines home_expected_goals away_expected_goals in
  Some (mkMatchPrediction win_probs btts over_under scorelines
          (ExpectedGoals.mk
             (Py.round home_expected_goals 2)
             (Py.round away_expected_goals 2)
             (Py.round (home_expected_goals + away_expected_goals) 2))).

(** The engine's entry point. *)
Definition predict_match_outcome : TeamData -> TeamData -> option MatchPrediction :=
  predict_match_outcome_with 1.15.

End FootballPredictor.

(** ** The loops over the values binary64 really holds

    [Poisson.pmf] is the exact mass.  What [stats.poisson.pmf] returns is a
    float: two masses that are equal as real numbers need not be equal as
    floats (at rate 5 the masses of 4 and 5 goals are), and a mass too small
    for binary64 is returned as [0.0].  Where a property depends on which
    floats are equal or zero, the two grid functions are therefore stated
    here with the library function [pmf] and the float product [mul] as
    parameters: whatever values they return, the loops, the division and
    the sort below do what the source does with them. *)

Module Floats.

Section Ops.

Variable pmf : nat -> R -> R.
Variable mul : R -> R -> R.

(** The value of [scoreline_prob] (line 115) and of [prob] (line 198) at one
    cell. *)
Definition cell_prob (home_xg away_xg : R) (c : nat * nat) : R :=
  mul (pmf (fst c) home_xg) (pmf (snd c) away_xg).

(** One pass of the inner loop body of [_calculate_win_probabilities]. *)
Definition wdl_cell_with (home_xg away_xg : R) (home_goals : nat)
    (acc : R * R * R) (away_goals : nat) : R * R * R :=
  let '(home_win_prob, draw_prob, away_win_prob) := acc in
  let home_goal_prob := pmf home_goals home_xg in
  let away_goal_prob := pmf away_goals away_xg in
  let scoreline_prob := mul home_goal_prob away_goal_prob in
  if (away_goals <? home_goals)%nat then
    (home_win_prob + scoreline_prob, draw_prob, away_win_prob)
  else if (home_goals <? away_goals)%nat then
    (home_win_prob, draw_prob, away_win_prob + scoreline_prob)
  else
    (home_win_prob, draw_prob + scoreline_prob, away_win_prob).

Definition wdl_buckets_with (home_xg away_xg : R) : R * R * R :=
  fold_left
    (fun acc home_goals =>
       fold_left (wdl_cell_with home_xg away_xg home_goals) (seq 0 8) acc)
    (seq 0 8) (0, 0, 0).

(** [_calculate_win_probabilities].  The three buckets are numpy floats, so
    dividing by a total of [0.0] raises nothing: it gives NaN (or an
    infinity), and [None] stands for that result. *)
Definition _calculate_win_probabilities_with (home_xg away_xg : R)
    : option WinProbs.t :=
  let '(home_win_prob, draw_prob, away_win_prob) :=
    wdl_buckets_with home_xg away_xg in
  let total := home_win_prob + draw_prob + away_win_prob in
  if Req_dec_T total 0 then None
  else Some (WinProbs.mk
               (Py.round ((home_win_prob / total) * 100) 1)
               (Py.round ((draw_prob / total) * 100) 1)
               (Py.round ((away_win_prob / total) * 100) 1)).

(** The entry appended for one cell of the grid of [_predict_scorelines]. *)
Definition scoreline_cell_with (home_xg away_xg : R)
    (home_goals away_goals : nat) : Scoreline.t :=
  let home_prob := pmf home_goals home_xg in
  let away_prob := pmf away_goals away_xg in
  let prob := mul home_prob away_prob in
  Scoreline.mk
    (Py.str_of_nat home_goals ++ "-" ++ Py.str_of_nat away_goals)
    prob.

Definition scoreline_probs_with (home_xg away_xg : R) : list Scoreline.t :=
  fold_left
    (fun acc home_goals =>
       fold_left
         (fun acc away_goals =>
            acc ++ [scoreline_cell_with home_xg away_xg home_goals away_goals])
         (seq 0 6) acc)
    (seq 0 6) [].

Definition _predict_scorelines_with (home_xg away_xg : R) : list Scoreline.t :=
  let sorted :=
    FootballPredictor.sort_desc Scoreline.probability
      (scoreline_probs_with home_xg away_xg) in
  let top_3 := firstn 3 sorted in
  map (fun s => Scoreline.mk (Scoreline.scoreline s)
                  (Py.round (Scoreline.probability s * 100) 1))
      top_3.

(** The entry reported for a cell. *)
Definition reported_with (home_xg away_xg : R) (c : nat * nat) : Scoreline.t :=
  Scoreline.mk
    (Py.str_of_nat (fst c) ++ "-" ++ Py.str_of_nat (snd c))
    (Py.round (cell_prob home_xg away_xg c * 100) 1).

End Ops.

(** Underflow.  The smallest positive binary64 number is [2^-1074]; rounding
    to nearest returns [0.0] for every result of magnitude at most half of
    it.  [flush] models that and nothing else of the rounding. *)
Definition tiny : R := / 2 ^ 1075.

Definition flush (x : R) : R := if Rle_dec (Rabs x) tiny then 0 else x.

(** The mass and the product with their underflow. *)
Definition pmf64 (k : nat) (mu : R) : R := flush (Poisson.pmf k mu).

Definition mul64 (x y : R) : R := flush (x * y).

End Floats.

(** ** The complement of a percentage in binary64

    The one place where the specification asks for an exact float equality
    is [over + under == 100.0].  [over_percentage] is the result of
    [round(_, 1)] on a numpy float, which is [rint(x * 10) / 10]: a float
    [k / 10] for an integer [k], between 0 and 1000 for a probability.  The
    definitions below redo lines 176-180 on such a value with the binary64
    operations themselves. *)

Module Binary64.

(** [rint] by the classical shift with [2^52], exact for [0 <= x < 2^52]
    in round-to-nearest-even. *)
Definition rint (x : float) : float :=
  PrimFloat.sub (PrimFloat.add x 0x1p52%float) 0x1p52%float.

Definition round1 (x : float) : float :=
  PrimFloat.div (rint (PrimFloat.mul x 10%float)) 10%float.

(** [over + under] when [over_percentage] is [k / 10]. *)
Definition over_plus_under (k : nat) : float :=
  let over_percentage :=
    PrimFloat.div (PrimFloat.of_uint63 (Uint63.of_nat k)) 10%float in
  let under := round1 (PrimFloat.sub 100%float over_percentage) in
  PrimFloat.add over_percentage under.

End Binary64.

(** ** Vocabulary of the specification *)

Module Spec.

(** [d[key]] on a dictionary kept as its list of items. *)
Fixpoint dict_get {A : Type} (key : string) (d : list (string * A)) : option A :=
  match d with
  | [] => None
  | (k, v) :: d' => if String.eqb k key then Some v else dict_get key d'
  end.

(** Offensive score as the specification writes it. *)
Definition offensive_score (d : TeamData) : R :=
  0.30 * xg d + 0.08 * (total_shots d / 20) + 0.12 * (shots_on_target d / 10)
  + 0.22 * xgot d + 0.13 * xa d + 0.15 * (passes_rate d / 100).

(** Defensive score as the specification writes it. *)
Definition defensive_score (d : TeamData) : R :=
  0.40 * (1 / (xgot_conceded d + 0.1)) + 0.30 * (tackles_rate d / 100)
  + 0.30 * (ball_recoveries d / 100).

(** Expected goals as the specification writes them. *)
Definition home_xg (home away : TeamData) : R :=
  xg home * 1.15 * (1 / (defensive_score away + 0.5)).

Definition away_xg (home away : TeamData) : R :=
  xg away * (1 / (defensive_score home + 0.5)).

(** Two records that differ at most in the statistics that only the
    offensive score reads. *)
Definition same_but_offence (d d' : TeamData) : Prop :=
  xg d = xg d' /\ xgot_conceded d = xgot_conceded d' /\
  tackles_rate d = tackles_rate d' /\ ball_recoveries d = ball_recoveries d'.

(** The [n] by [n] grid of (home goals, away goals), in the order the nested
    loops visit it. *)
Definition grid (n : nat) : list (nat * nat) :=
  list_prod (seq 0 n) (seq 0 n).

(** Joint probability of a cell: the product of the two Poisson masses. *)
Definition joint (home_xg away_xg : R) (c : nat * nat) : R :=
  Poisson.pmf (fst c) home_xg * Poisson.pmf (snd c) away_xg.

(** Sum of [f] over a list. *)
Definition sum_over {A : Type} (f : A -> R) (l : list A) : R :=
  fold_right (fun x acc => f x + acc) 0 l.

(** Sum of [f] over the cells of [l] that satisfy [p]. *)
Definition mass (p : nat * nat -> bool) (f : nat * nat -> R)
    (l : list (nat * nat)) : R :=
  sum_over (fun c => if p c then f c else 0) l.

Definition is_home_win (c : nat * nat) : bool := (snd c <? fst c)%nat.
Definition is_draw (c : nat * nat) : bool := (fst c =? snd c)%nat.
Definition is_away_win (c : nat * nat) : bool := (fst c <? snd c)%nat.

(** Lexicographic order on (home goals, away goals). *)
Definition lex_lt (c c' : nat * nat) : Prop :=
  (fst c < fst c')%nat \/ (fst c = fst c' /\ (snd c < snd c')%nat).

(** Order of a list sorted by [key], largest first, whose ties keep the
    order [before] of the list handed to the sort. *)
Definition keyed_before {A : Type} (key : A -> R) (before : A -> A -> Prop)
    (x y : A) : Prop :=
  key y < key x \/ (key x = key y /\ before x y).

(** [c] is ranked before [c']: more probable, or as probable and earlier in
    the lexicographic order. *)
Definition ranked_before (home_xg away_xg : R) : nat * nat -> nat * nat -> Prop :=
  keyed_before (joint home_xg away_xg) lex_lt.

(** The entry reported for a cell: ["h-a"] and its percentage. *)
Definition reported (home_xg away_xg : R) (c : nat * nat) : Scoreline.t :=
  Scoreline.mk
    (Py.str_of_nat (fst c) ++ "-" ++ Py.str_of_nat (snd c))
    (Py.round (joint home_xg away_xg c * 100) 1).

(** The records the form of [app.py] submits when no field is edited. *)
Definition default_home : TeamData :=
  mkTeamData 1.5 12 5 1.3 1.0 75.0 70.0 50 1.0.

Definition default_away : TeamData :=
  mkTeamData 1.2 10 4 1.0 0.8 72.0 68.0 45 1.2.

End Spec.

(** ** The caller: [main] of [app.py] *)

Module App.

(** The ranges of the [st.number_input] fields of the form, for one team
    ([min_value] and [max_value] of each field). *)
Definition in_form_range (d : TeamData) : Prop :=
  0 <= xg d <= 10 /\ 0 <= total_shots d <= 50 /\
  0 <= shots_on_target d <= 30 /\ 0 <= xgot d <= 10 /\
  0 <= xa d <= 5 /\ 0 <= passes_rate d <= 100 /\
  0 <= tackles_rate d <= 100 /\ 0 <= ball_recoveries d <= 200 /\
  0 <= xgot_conceded d <= 10.

(** The three banners of the outcome section. *)
Inductive Outcome : Type := HomeWin | Draw | AwayWin.

(** [max(a, b, c)]: the running maximum is replaced only by a strictly
    larger argument. *)
Definition max3 (a b c : R) : R :=
  let m := if Rlt_dec a b then b else a in
  if Rlt_dec m c then c else m.

(** "Determine most likely outcome" of [main]: the banner and the
    percentage it prints. *)
Definition most_likely_outcome (win_probs : WinProbs.t) : Outcome * R :=
  let max_prob :=
    max3 (WinProbs.home_win win_probs) (WinProbs.draw win_probs)
         (WinProbs.away_win win_probs) in
  if Req_dec_T max_prob (WinProbs.home_win win_probs) then (HomeWin, max_prob)
  else if Req_dec_T max_prob (WinProbs.draw win_probs) then (Draw, max_prob)
  else (AwayWin, max_prob).

End App.

(** ** Facts about rounding *)

Module PyFacts.
Import Py.

Lemma rint_bound (x : R) :
  IZR (rint x) - 1 / 2 <= x <= IZR (rint x) + 1 / 2.
Proof.
  unfold rint.
  pose proof (Zfloor_bound x) as Hf.
  destruct (Rlt_dec (x - IZR (Zfloor x)) (1 / 2)) as [Hlo | Hlo].
  - lra.
  - destruct (Rlt_dec (1 / 2) (x - IZR (Zfloor x))) as [Hhi | Hhi].
    + rewrite plus_IZR. lra.
    + destruct (Z.even (Zfloor x)); [lra | rewrite plus_IZR; lra].
Qed.

(** A real strictly within a half of an integer rounds to it. *)
Lemma rint_near (x : R) (z : Z) :
  IZR z - 1 / 2 < x < IZR z + 1 / 2 -> rint x = z.
Proof.
  intros Hx.
  pose proof (rint_bound x) as Hb.
  assert (H1 : (rint x < z + 1)%Z).
  { apply lt_IZR. rewrite plus_IZR. lra. }
  assert (H2 : (z < rint x + 1)%Z).
  { apply lt_IZR. rewrite plus_IZR. lra. }
  lia.
Qed.

Lemma rint_IZR (z : Z) : rint (IZR z) = z.
Proof. apply rint_near. lra. Qed.

Lemma rint_mono (x y : R) : x <= y -> (rint x <= rint y)%Z.
Proof.
  intros Hxy.
  pose proof (Zfloor_le x y Hxy) as Hfl.
  pose proof (Zfloor_bound x) as Hx.
  pose proof (Zfloor_bound y) as Hy.
  unfold rint.
  destruct (Z.eq_dec (Zfloor x) (Zfloor y)) as [He | Hne].
  - rewrite He in *.
    destruct (Rlt_dec (x - IZR (Zfloor y)) (1 / 2)) as [Hx1 | Hx1];
      destruct (Rlt_dec (y - IZR (Zfloor y)) (1 / 2)) as [Hy1 | Hy1];
      try lia; try lra.
    + destruct (Rlt_dec (1 / 2) (y - IZR (Zfloor y))); [lia |].
      destruct (Z.even (Zfloor y)); lia.
    + destruct (Rlt_dec (1 / 2) (x - IZR (Zfloor y))) as [Hx2 | Hx2];
        destruct (Rlt_dec (1 / 2) (y - IZR (Zfloor y))) as [Hy2 | Hy2];
        try lia; try lra.
      destruct (Z.even (Zfloor y)); lia.
  - assert (Hlt : (Zfloor x + 1 <= Zfloor y)%Z) by lia.
    assert (Hrx : (rint x <= Zfloor x + 1)%Z).
    { unfold rint.
      destruct (Rlt_dec (x - IZR (Zfloor x)) (1 / 2)); [lia |].
      destruct (Rlt_dec (1 / 2) (x - IZR (Zfloor x))); [lia |].
      destruct (Z.even (Zfloor x)); lia. }
    assert (Hry : (Zfloor y <= rint y)%Z).
    { unfold rint.
      destruct (Rlt_dec (y - IZR (Zfloor y)) (1 / 2)); [lia |].
      destruct (Rlt_dec (1 / 2) (y - IZR (Zfloor y))); [lia |].
      destruct (Z.even (Zfloor y)); lia. }
    unfold rint in Hrx, Hry. lia.
Qed.

Lemma pow10_pos (n : nat) : 0 < 10 ^ n.
Proof. apply pow_lt. lra. Qed.

Lemma round_mono (x y : R) (n : nat) : x <= y -> round x n <= round y n.
Proof.
  intros Hxy. unfold round.
  pose proof (pow10_pos n) as Hp.
  apply Rmult_le_compat_r.
  - left. now apply Rinv_0_lt_compat.
  - apply IZR_le, rint_mono. nra.
Qed.

(** A value with at most [n] decimals is a fixed point of [round(_, n)]. *)
Lemma round_decimal (z : Z) (n : nat) : round (IZR z / 10 ^ n) n = IZR z / 10 ^ n.
Proof.
  unfold round.
  pose proof (pow10_pos n) as Hp.
  replace (IZR z / 10 ^ n * 10 ^ n) with (IZR z) by (field; lra).
  now rewrite rint_IZR.
Qed.

Lemma round_round (x : R) (n : nat) : round (round x n) n = round x n.
Proof. unfold round at 2. apply round_decimal. Qed.

Lemma round_0 (n : nat) : round 0 n = 0.
Proof.
  replace 0 with (IZR 0 / 10 ^ n) at 1.
  - rewrite round_decimal. unfold Rdiv. ring.
  - unfold Rdiv. ring.
Qed.

Lemma round1_100 : round 100 1 = 100.
Proof.
  replace 100 with (IZR 1000 / 10 ^ 1) at 1 by (simpl; lra).
  rewrite round_decimal. simpl. lra.
Qed.

Lemma round1_50 : round 50 1 = 50.
Proof.
  replace 50 with (IZR 500 / 10 ^ 1) at 1 by (simpl; lra).
  rewrite round_decimal. simpl. lra.
Qed.

(** [round(x, n)] is within half a unit of the last kept decimal. *)
Lemma round_error (x : R) (n : nat) :
  Rabs (round x n - x) <= / 2 / 10 ^ n.
Proof.
  unfold round.
  pose proof (pow10_pos n) as Hp.
  pose proof (rint_bound (x * 10 ^ n)) as Hb.
  replace (IZR (rint (x * 10 ^ n)) / 10 ^ n - x)
    with ((IZR (rint (x * 10 ^ n)) - x * 10 ^ n) / 10 ^ n) by (field; lra).
  unfold Rdiv at 1. rewrite Rabs_mult, (Rabs_pos_eq (/ 10 ^ n)).
  - apply Rmult_le_compat_r.
    + left. now apply Rinv_0_lt_compat.
    + apply Rabs_le. lra.
  - left. now apply Rinv_0_lt_compat.
Qed.

(** [100 - p] needs no rounding when [p] is already a rounded percentage. *)
Lemma round1_complement (x : R) : round (100 - round x 1) 1 = 100 - round x 1.
Proof.
  assert (E : 100 - round x 1 = IZR (1000 - rint (x * 10 ^ 1)) / 10 ^ 1).
  { unfold round. rewrite minus_IZR. simpl. lra. }
  rewrite E. apply round_decimal.
Qed.

(** Three percentages that add up to 100, each rounded to one decimal, add
    up to 99.9, 100.0 or 100.1. *)
Lemma round1_sum3 (a b c : R) :
  a + b + c = 100 ->
  Rabs (round a 1 + round b 1 + round c 1 - 100) <= 0.1.
Proof.
  intros Hs. unfold round.
  pose proof (rint_bound (a * 10 ^ 1)) as Ha.
  pose proof (rint_bound (b * 10 ^ 1)) as Hb.
  pose proof (rint_bound (c * 10 ^ 1)) as Hc.
  set (ka := rint (a * 10 ^ 1)) in *.
  set (kb := rint (b * 10 ^ 1)) in *.
  set (kc := rint (c * 10 ^ 1)) in *.
  simpl in *.
  assert (Hlo : (999 <= ka + kb + kc)%Z).
  { assert (H : (998 < ka + kb + kc)%Z); [| lia].
    apply lt_IZR. rewrite !plus_IZR. lra. }
  assert (Hhi : (ka + kb + kc <= 1001)%Z).
  { assert (H : (ka + kb + kc < 1002)%Z); [| lia].
    apply lt_IZR. rewrite !plus_IZR. lra. }
  apply IZR_le in Hlo, Hhi. rewrite !plus_IZR in Hlo, Hhi.
  apply Rabs_le. lra.
Qed.

Lemma min_le_l (a b : R) : min a b <= a.
Proof. unfold min. destruct (Rlt_dec b a); lra. Qed.

Lemma min_le_r (a b : R) : min a b <= b.
Proof. unfold min. destruct (Rlt_dec b a); lra. Qed.

Lemma min_glb (a b c : R) : c <= a -> c <= b -> c <= min a b.
Proof. unfold min. destruct (Rlt_dec b a); lra. Qed.

Lemma div_some (x y : R) : y <> 0 -> div x y = Some (x / y).
Proof. intros Hy. unfold div. destruct (Req_dec_T y 0); [contradiction | reflexivity]. Qed.

Example str_of_nat_5 : str_of_nat 5 = "5"%string.
Proof. reflexivity. Qed.

(** A tie goes to the even neighbour: [round(0.25, 1)] is [0.2]. *)
Example round_tie_to_even : round (1 / 4) 1 = 2 / 10.
Proof.
  unfold round, rint.
  assert (Hf : Zfloor (1 / 4 * 10 ^ 1) = 2%Z).
  { apply Zfloor_eq. simpl. lra. }
  rewrite Hf. simpl.
  destruct (Rlt_dec (1 / 4 * (10 * 1) - 2) (1 / 2)); [lra |].
  destruct (Rlt_dec (1 / 2) (1 / 4 * (10 * 1) - 2)); lra.
Qed.

End PyFacts.

(** ** Facts about the Poisson mass function *)

Module PoissonFacts.
Import Poisson.

Lemma pmf_0 (mu : R) : pmf 0 mu = exp (- mu).
Proof. unfold pmf. simpl. field. Qed.

Lemma pmf_0_pos (mu : R) : 0 < pmf 0 mu.
Proof. rewrite pmf_0. apply exp_pos. Qed.

Lemma pmf_0_le_1 (mu : R) : 0 <= mu -> pmf 0 mu <= 1.
Proof.
  intros Hmu. rewrite pmf_0, <- exp_0.
  destruct Hmu as [Hlt | <-].
  - left. apply exp_increasing. lra.
  - rewrite Ropp_0. lra.
Qed.

Lemma pmf_nonneg (k : nat) (mu : R) : 0 <= mu -> 0 <= pmf k mu.
Proof.
  intros Hmu. unfold pmf.
  apply Rmult_le_pos.
  - apply Rmult_le_pos; [left; apply exp_pos | now apply pow_le].
  - left. apply Rinv_0_lt_compat, INR_fact_lt_0.
Qed.

Lemma pmf_pos (k : nat) (mu : R) : 0 < mu -> 0 < pmf k mu.
Proof.
  intros Hmu. unfold pmf.
  apply Rmult_lt_0_compat.
  - apply Rmult_lt_0_compat; [apply exp_pos | now apply pow_lt].
  - apply Rinv_0_lt_compat, INR_fact_lt_0.
Qed.

(** At rate 0 the whole mass sits on 0 goals. *)
Lemma pmf_0_rate0 : pmf 0 0 = 1.
Proof. rewrite pmf_0, Ropp_0. apply exp_0. Qed.

Lemma pmf_S_rate0 (k : nat) : pmf (S k) 0 = 0.
Proof. unfold pmf. simpl. unfold Rdiv. ring. Qed.

Lemma pmf_upto_rate0 (n : nat) : pmf_upto n 0 = 1.
Proof.
  induction n as [| n IH]; simpl.
  - apply pmf_0_rate0.
  - rewrite IH, pmf_S_rate0. ring.
Qed.

Lemma pmf_upto_pos (n : nat) (mu : R) : 0 <= mu -> 0 < pmf_upto n mu.
Proof.
  intros Hmu. induction n as [| n IH]; simpl.
  - apply pmf_0_pos.
  - pose proof (pmf_nonneg (S n) mu Hmu). lra.
Qed.

(** [cdf] at a non-negative integer point. *)
Lemma cdf_at_nat (x : R) (n : nat) (mu : R) :
  INR n <= x < INR n + 1 -> cdf x mu = pmf_upto n mu.
Proof.
  intros Hx. unfold cdf.
  pose proof (pos_INR n) as Hn.
  destruct (Rlt_dec x 0) as [Hneg | _]; [lra |].
  rewrite (Zfloor_eq (Z.of_nat n) x).
  - now rewrite Nat2Z.id.
  - now rewrite <- INR_IZR_INZ.
Qed.

End PoissonFacts.

(** ** Team strength and expected goals *)

Module Strength.
Import FootballPredictor PyFacts.

Lemma defensive_score_pos (d : TeamData) :
  valid_team_data d -> 0 < Spec.defensive_score d.
Proof.
  intros (_ & _ & _ & _ & _ & _ & Ht & Hb & Hc).
  unfold Spec.defensive_score.
  assert (Hinv : 0 < 1 / (xgot_conceded d + 0.1)).
  { apply Rdiv_lt_0_compat; lra. }
  lra.
Qed.

Lemma team_strength_valid (d : TeamData) :
  valid_team_data d ->
  calculate_team_strength d =
    Some (Spec.offensive_score d, Spec.defensive_score d).
Proof.
  intros (_ & _ & _ & _ & _ & _ & _ & _ & Hc).
  unfold calculate_team_strength.
  rewrite div_some by lra. simpl.
  f_equal. f_equal.
  - unfold Spec.offensive_score, w_xg, w_total_shots, w_shots_on_target,
      w_xgot, w_xa, w_passes_rate. ring.
  - unfold Spec.defensive_score, w_xgot_conceded, w_tackles_rate,
      w_ball_recoveries. ring.
Qed.

Lemma scalars_valid (ha : R) (home away : TeamData) :
  valid_team_data home -> valid_team_data away ->
  expected_goal_scalars ha home away =
    Some (xg home * ha * (1 / (Spec.defensive_score away + 0.5)),
          xg away * (1 / (Spec.defensive_score home + 0.5))).
Proof.
  intros Hh Ha.
  pose proof (defensive_score_pos home Hh).
  pose proof (defensive_score_pos away Ha).
  unfold expected_goal_scalars.
  rewrite (team_strength_valid home Hh), (team_strength_valid away Ha). simpl.
  rewrite !div_some by lra. reflexivity.
Qed.

Lemma scalars_nonneg (ha : R) (home away : TeamData) :
  0 <= ha -> valid_team_data home -> valid_team_data away ->
  0 <= xg home * ha * (1 / (Spec.defensive_score away + 0.5)) /\
  0 <= xg away * (1 / (Spec.defensive_score home + 0.5)).
Proof.
  intros H0 Hh Ha.
  pose proof (defensive_score_pos home Hh).
  pose proof (defensive_score_pos away Ha).
  destruct Hh as (Hxh & _), Ha as (Hxa & _).
  assert (0 < 1 / (Spec.defensive_score away + 0.5)) by (apply Rdiv_lt_0_compat; lra).
  assert (0 < 1 / (Spec.defensive_score home + 0.5)) by (apply Rdiv_lt_0_compat; lra).
  split.
  - apply Rmult_le_pos; [apply Rmult_le_pos |]; lra.
  - apply Rmult_le_pos; lra.
Qed.

(** The defensive score reads three fields only. *)
Lemma defensive_score_ext (d d' : TeamData) :
  Spec.same_but_offence d d' -> Spec.defensive_score d = Spec.defensive_score d'.
Proof.
  intros (_ & Hc & Ht & Hb). unfold Spec.defensive_score.
  now rewrite Hc, Ht, Hb.
Qed.

Lemma same_but_offence_valid_strength (d d' : TeamData) :
  Spec.same_but_offence d d' -> valid_team_data d ->
  exists o, calculate_team_strength d' = Some (o, Spec.defensive_score d).
Proof.
  intros (Hx & Hc & Ht & Hb) (_ & _ & _ & _ & _ & _ & _ & _ & Hc0).
  unfold calculate_team_strength.
  rewrite div_some by lra. simpl.
  eexists. f_equal. f_equal.
  unfold Spec.defensive_score, w_xgot_conceded, w_tackles_rate,
    w_ball_recoveries. rewrite Hc, Ht, Hb. ring.
Qed.

(** The whole result of the engine on valid records. *)
Lemma predict_valid (ha : R) (home away : TeamData) :
  valid_team_data home -> valid_team_data away ->
  let h := xg home * ha * (1 / (Spec.defensive_score away + 0.5)) in
  let a := xg away * (1 / (Spec.defensive_score home + 0.5)) in
  predict_match_outcome_with ha home away =
    Some (mkMatchPrediction
            (_calculate_win_probabilities h a)
            (_predict_btts h a home away)
            (_predict_over_under h a)
            (_predict_scorelines h a)
            (ExpectedGoals.mk (Py.round h 2) (Py.round a 2) (Py.round (h + a) 2))).
Proof.
  intros Hh Ha h a. unfold predict_match_outcome_with.
  rewrite (scalars_valid ha home away Hh Ha). reflexivity.
Qed.

(** The engine returns on every pair of valid records. *)
Lemma predict_total (home away : TeamData) :
  valid_team_data home -> valid_team_data away ->
  exists p, predict_match_outcome home away = Some p.
Proof.
  intros Hh Ha. eexists. unfold predict_match_outcome.
  now apply predict_valid.
Qed.

(** Outside the valid records a division can fail: [xgot_conceded = -0.1]
    makes [1 / (xgot_conceded + 0.1)] raise. *)
Example team_strength_raises :
  calculate_team_strength (mkTeamData 1 0 0 0 0 0 0 0 (-0.1)) = None.
Proof.
  unfold calculate_team_strength, Py.div. cbn [xgot_conceded].
  destruct (Req_dec_T (-0.1 + 0.1) 0) as [_ | Hne]; [reflexivity |].
  exfalso. apply Hne. lra.
Qed.

End Strength.

Import FootballPredictor PyFacts PoissonFacts Strength.

(** ** Sums over the grid *)

Module GridSums.
Import Spec.

Lemma sum_over_cons {A : Type} (f : A -> R) (x : A) (l : list A) :
  sum_over f (x :: l) = f x + sum_over f l.
Proof. reflexivity. Qed.

Lemma sum_over_app {A : Type} (f : A -> R) (l l' : list A) :
  sum_over f (l ++ l') = sum_over f l + sum_over f l'.
Proof. induction l as [| x l IH]; simpl; [| rewrite IH]; ring. Qed.

Lemma sum_over_map {A B : Type} (g : A -> B) (f : B -> R) (l : list A) :
  sum_over f (map g l) = sum_over (fun x => f (g x)) l.
Proof. induction l as [| x l IH]; simpl; [| rewrite IH]; reflexivity. Qed.

Lemma sum_over_ext {A : Type} (f g : A -> R) (l : list A) :
  (forall x, In x l -> f x = g x) -> sum_over f l = sum_over g l.
Proof.
  induction l as [| x l IH]; simpl; intros Hfg; [reflexivity |].
  rewrite IH, (Hfg x) by auto. reflexivity.
Qed.

Lemma sum_over_plus {A : Type} (f g : A -> R) (l : list A) :
  sum_over (fun x => f x + g x) l = sum_over f l + sum_over g l.
Proof. induction l as [| x l IH]; simpl; [| rewrite IH]; ring. Qed.

Lemma sum_over_zero {A : Type} (l : list A) : sum_over (fun _ => 0) l = 0.
Proof. induction l as [| x l IH]; simpl; [| rewrite IH]; ring. Qed.

Lemma sum_over_nonneg {A : Type} (f : A -> R) (l : list A) :
  (forall x, 0 <= f x) -> 0 <= sum_over f l.
Proof.
  intros Hf. induction l as [| x l IH]; simpl; [lra |].
  pose proof (Hf x). lra.
Qed.

(** A sum over the product of two lists is a double sum. *)
Lemma sum_over_prod (f : nat * nat -> R) (hs gs : list nat) :
  sum_over f (list_prod hs gs) =
  sum_over (fun h => sum_over (fun a => f (h, a)) gs) hs.
Proof.
  induction hs as [| h hs IH]; simpl; [reflexivity |].
  now rewrite sum_over_app, sum_over_map, IH.
Qed.

(** The two sums of a double sum can be exchanged. *)
Lemma sum_over_exchange (g : nat -> nat -> R) (hs gs : list nat) :
  sum_over (fun h => sum_over (fun a => g h a) gs) hs =
  sum_over (fun a => sum_over (fun h => g h a) hs) gs.
Proof.
  induction hs as [| h hs IH]; simpl.
  - now rewrite sum_over_zero.
  - now rewrite IH, <- sum_over_plus.
Qed.

(** Transposing the square grid leaves a sum unchanged. *)
Lemma sum_over_grid_transpose (f : nat * nat -> R) (n : nat) :
  sum_over f (grid n) = sum_over (fun c => f (snd c, fst c)) (grid n).
Proof.
  unfold grid. rewrite !sum_over_prod. simpl.
  apply (sum_over_exchange (fun h a => f (h, a))).
Qed.

Lemma mass_nonneg (p : nat * nat -> bool) (f : nat * nat -> R) l :
  (forall c, 0 <= f c) -> 0 <= mass p f l.
Proof.
  intros Hf. apply sum_over_nonneg. intros c.
  destruct (p c); [apply Hf | lra].
Qed.

(** Every cell falls in exactly one of the three buckets. *)
Lemma mass_partition (f : nat * nat -> R) l :
  mass is_home_win f l + mass is_draw f l + mass is_away_win f l = sum_over f l.
Proof.
  unfold mass. rewrite <- !sum_over_plus. apply sum_over_ext.
  intros [h a] _. unfold is_home_win, is_draw, is_away_win. simpl.
  destruct (Nat.ltb_spec a h), (Nat.eqb_spec h a), (Nat.ltb_spec h a);
    try lia; ring.
Qed.

Lemma in_grid (n h a : nat) : In (h, a) (grid n) <-> (h < n /\ a < n)%nat.
Proof. unfold grid. rewrite in_prod_iff, !in_seq. lia. Qed.

Lemma length_grid (n : nat) : List.length (grid n) = (n * n)%nat.
Proof. unfold grid. now rewrite length_prod, length_seq. Qed.

End GridSums.

(** ** The win/draw/loss loops *)

Module WinFacts.
Import Spec GridSums.

(** Two triples of reals are equal when their components are, by [ring]. *)
Ltac triple_ring := apply f_equal2; [apply f_equal2 |]; ring.

Lemma wdl_inner (hx ax : R) (h : nat) (l : list nat) (x y z : R) :
  fold_left (wdl_cell hx ax h) l (x, y, z) =
  (x + mass is_home_win (joint hx ax) (map (fun a => (h, a)) l),
   y + mass is_draw (joint hx ax) (map (fun a => (h, a)) l),
   z + mass is_away_win (joint hx ax) (map (fun a => (h, a)) l)).
Proof.
  revert x y z. induction l as [| a l IH]; intros x y z; simpl.
  - unfold mass. simpl. triple_ring.
  - set (mh := mass is_home_win (joint hx ax) (map (fun a => (h, a)) l)) in *.
    set (md := mass is_draw (joint hx ax) (map (fun a => (h, a)) l)) in *.
    set (ma := mass is_away_win (joint hx ax) (map (fun a => (h, a)) l)) in *.
    unfold is_home_win, is_draw, is_away_win, joint. simpl fst. simpl snd.
    destruct (Nat.ltb_spec a h) as [Hah | Hah].
    + rewrite IH.
      destruct (Nat.eqb_spec h a); [lia |].
      destruct (Nat.ltb_spec h a); [lia |].
      triple_ring.
    + destruct (Nat.ltb_spec h a) as [Hha | Hha]; rewrite IH.
      * destruct (Nat.eqb_spec h a); [lia |]. triple_ring.
      * destruct (Nat.eqb_spec h a); [| lia]. triple_ring.
Qed.

Lemma wdl_outer (hx ax : R) (hs gs : list nat) (x y z : R) :
  fold_left (fun acc h => fold_left (wdl_cell hx ax h) gs acc) hs (x, y, z) =
  (x + mass is_home_win (joint hx ax) (list_prod hs gs),
   y + mass is_draw (joint hx ax) (list_prod hs gs),
   z + mass is_away_win (joint hx ax) (list_prod hs gs)).
Proof.
  revert x y z. induction hs as [| h hs IH]; intros x y z; simpl.
  - unfold mass. simpl. triple_ring.
  - rewrite wdl_inner, IH. unfold mass. rewrite !sum_over_app.
    triple_ring.
Qed.

(** The loops compute the three bucket sums over the 8 by 8 grid. *)
Lemma wdl_buckets_mass (hx ax : R) :
  wdl_buckets hx ax =
  (mass is_home_win (joint hx ax) (grid 8),
   mass is_draw (joint hx ax) (grid 8),
   mass is_away_win (joint hx ax) (grid 8)).
Proof.
  unfold wdl_buckets. rewrite wdl_outer. unfold grid.
  triple_ring.
Qed.

Lemma joint_nonneg (hx ax : R) (c : nat * nat) :
  0 <= hx -> 0 <= ax -> 0 <= joint hx ax c.
Proof.
  intros Hh Ha. unfold joint.
  apply Rmult_le_pos; now apply pmf_nonneg.
Qed.

Lemma joint_00_pos (hx ax : R) : 0 < joint hx ax (0%nat, 0%nat).
Proof. unfold joint. simpl. apply Rmult_lt_0_compat; apply pmf_0_pos. Qed.

(** The truncated grid keeps a positive share of the mass. *)
Lemma grid_total_pos (hx ax : R) (n : nat) :
  0 <= hx -> 0 <= ax -> 0 < sum_over (joint hx ax) (grid (S n)).
Proof.
  intros Hh Ha.
  change (grid (S n)) with ((0%nat, 0%nat) :: tl (grid (S n))).
  rewrite sum_over_cons.
  pose proof (joint_00_pos hx ax).
  pose proof (sum_over_nonneg (joint hx ax) (tl (grid (S n)))
                (fun c => joint_nonneg hx ax c Hh Ha)).
  lra.
Qed.

(** Swapping the two rates transposes the table of joint probabilities. *)
Lemma joint_swap (a b : R) (c : nat * nat) :
  joint a b (snd c, fst c) = joint b a c.
Proof. unfold joint. simpl. ring. Qed.

Lemma mass_home_swap (a b : R) (n : nat) :
  mass is_home_win (joint a b) (grid n) = mass is_away_win (joint b a) (grid n).
Proof.
  unfold mass. rewrite sum_over_grid_transpose.
  apply sum_over_ext. intros c _.
  unfold is_home_win, is_away_win. simpl. now rewrite joint_swap.
Qed.

Lemma mass_draw_swap (a b : R) (n : nat) :
  mass is_draw (joint a b) (grid n) = mass is_draw (joint b a) (grid n).
Proof.
  unfold mass. rewrite sum_over_grid_transpose.
  apply sum_over_ext. intros c _.
  unfold is_draw. simpl. rewrite joint_swap, Nat.eqb_sym. reflexivity.
Qed.

(** The result of [_calculate_win_probabilities] in terms of the bucket sums. *)
Lemma win_probabilities_mass (hx ax : R) :
  let H := mass is_home_win (joint hx ax) (grid 8) in
  let D := mass is_draw (joint hx ax) (grid 8) in
  let A := mass is_away_win (joint hx ax) (grid 8) in
  _calculate_win_probabilities hx ax =
  WinProbs.mk (Py.round (H / (H + D + A) * 100) 1)
              (Py.round (D / (H + D + A) * 100) 1)
              (Py.round (A / (H + D + A) * 100) 1).
Proof.
  unfold _calculate_win_probabilities.
  rewrite wdl_buckets_mass. reflexivity.
Qed.

End WinFacts.

(** ** The goalless match *)

Module GoallessFacts.
Import Spec GridSums WinFacts.

(** A share of a positive total, as a rounded percentage, is in [0, 100]. *)
Lemma percent_range (x t : R) :
  0 <= x -> x <= t -> 0 < t -> 0 <= Py.round (x / t * 100) 1 <= 100.
Proof.
  intros H0 Hx Ht.
  assert (Hq : 0 <= x / t <= 1).
  { split.
    - apply Rmult_le_pos; [lra | left; now apply Rinv_0_lt_compat].
    - apply (Rmult_le_reg_r t); [lra |].
      replace (x / t * t) with x by (field; lra). lra. }
  split.
  - apply Rle_trans with (Py.round 0 1).
    + rewrite round_0. lra.
    + apply round_mono. lra.
  - apply Rle_trans with (Py.round 100 1).
    + apply round_mono. lra.
    + rewrite round1_100. lra.
Qed.

(** With both rates 0 only the cell (0,0) has mass. *)
Lemma joint_rate0 (c : nat * nat) :
  joint 0 0 c = if andb (fst c =? 0)%nat (snd c =? 0)%nat then 1 else 0.
Proof.
  destruct c as [[| h] [| a]]; unfold joint; simpl fst; simpl snd; simpl andb;
    rewrite ?pmf_0_rate0, ?pmf_S_rate0; ring.
Qed.

Lemma mass_home_rate0 (n : nat) : mass is_home_win (joint 0 0) (grid n) = 0.
Proof.
  unfold mass.
  transitivity (sum_over (fun _ : nat * nat => 0) (grid n));
    [| apply sum_over_zero].
  apply sum_over_ext. intros [h a] _. unfold is_home_win. simpl.
  destruct (Nat.ltb_spec a h) as [Hlt | _]; [| reflexivity].
  rewrite joint_rate0. simpl. destruct h; [lia | reflexivity].
Qed.

Lemma mass_away_rate0 (n : nat) : mass is_away_win (joint 0 0) (grid n) = 0.
Proof. rewrite <- mass_home_swap. apply mass_home_rate0. Qed.

Lemma mass_draw_rate0 : mass is_draw (joint 0 0) (grid 8) = 1.
Proof.
  unfold mass.
  rewrite (sum_over_ext _ (fun c => if andb (fst c =? 0)%nat (snd c =? 0)%nat
                                    then 1 else 0)).
  - cbv [grid list_prod seq map app sum_over fold_right fst snd Nat.eqb andb].
    ring.
  - intros [h a] _. rewrite joint_rate0. unfold is_draw. simpl.
    destruct h, a; simpl; try reflexivity.
    destruct (Nat.eqb h a); reflexivity.
Qed.

Lemma win_probabilities_rate0 :
  _calculate_win_probabilities 0 0 = WinProbs.mk 0 100 0.
Proof.
  rewrite win_probabilities_mass. cbv zeta.
  rewrite mass_home_rate0, mass_away_rate0, mass_draw_rate0.
  replace (0 / (0 + 1 + 0) * 100) with 0 by field.
  replace (1 / (0 + 1 + 0) * 100) with 100 by field.
  now rewrite round_0, round1_100.
Qed.

End GoallessFacts.

(** ** Both teams to score *)

Module BttsFacts.

Lemma def_factor_range (xc : R) : 0 <= xc -> 0.9 <= def_factor xc <= 1.15.
Proof.
  intros Hxc. unfold def_factor, Py.min.
  destruct (Rlt_dec (1 + (xc - 1.0) * 0.1) 1.15); lra.
Qed.

Lemma def_factor_below_1 (xc : R) : xc < 1.0 -> def_factor xc < 1.
Proof.
  intros Hxc. unfold def_factor, Py.min.
  destruct (Rlt_dec (1 + (xc - 1.0) * 0.1) 1.15); lra.
Qed.

Lemma def_factor_0 : def_factor 0 = 0.9.
Proof.
  unfold def_factor, Py.min.
  destruct (Rlt_dec (1 + (0 - 1.0) * 0.1) 1.15); lra.
Qed.

Lemma scoring_prob_range (mu : R) : 0 <= mu -> 0 <= 1 - Poisson.pmf 0 mu < 1.
Proof.
  intros Hmu.
  pose proof (pmf_0_pos mu). pose proof (pmf_0_le_1 mu Hmu). lra.
Qed.

(** An adjusted and clamped scoring probability lies in [0, 0.99]. *)
Lemma adjusted_range (p f : R) :
  0 <= p -> 0 <= f -> 0 <= Py.min 0.99 (p * f) <= 0.99.
Proof.
  intros Hp Hf. split.
  - apply min_glb; [lra | now apply Rmult_le_pos].
  - apply min_le_l.
Qed.

Lemma btts_rate0 (home away : TeamData) :
  _predict_btts 0 0 home away = Btts.mk "No" 0.
Proof.
  unfold _predict_btts. rewrite pmf_0_rate0.
  replace (1 - 1) with 0 by ring. rewrite !Rmult_0_l.
  assert (Hm : Py.min 0.99 0 = 0).
  { unfold Py.min. destruct (Rlt_dec 0 0.99); lra. }
  rewrite Hm, !Rmult_0_l, round_0.
  destruct (Rge_dec 0 50); [lra | reflexivity].
Qed.

End BttsFacts.

Import Spec GridSums WinFacts GoallessFacts BttsFacts.

(** ** Over/under *)

Module OverUnderFacts.

(** The dictionary built by the loop, item by item. *)
Lemma predict_over_under_items (hx ax : R) :
  _predict_over_under hx ax =
  [("1.5"%string, over_under_entry (hx + ax) 1.5);
   ("2.5"%string, over_under_entry (hx + ax) 2.5);
   ("3.5"%string, over_under_entry (hx + ax) 3.5)].
Proof. reflexivity. Qed.

Lemma cdf_threshold_15 (mu : R) : Poisson.cdf (1.5 - 0.5) mu = Poisson.pmf_upto 1 mu.
Proof. apply cdf_at_nat. simpl. lra. Qed.

Lemma cdf_threshold_25 (mu : R) : Poisson.cdf (2.5 - 0.5) mu = Poisson.pmf_upto 2 mu.
Proof. apply cdf_at_nat. simpl. lra. Qed.

Lemma cdf_threshold_35 (mu : R) : Poisson.cdf (3.5 - 0.5) mu = Poisson.pmf_upto 3 mu.
Proof. apply cdf_at_nat. simpl. lra. Qed.

(** What one entry holds, whatever the threshold. *)
Lemma over_under_entry_spec (mu t : R) :
  let e := over_under_entry mu t in
  OverUnder.over e = Py.round ((1 - Poisson.cdf (t - 0.5) mu) * 100) 1 /\
  OverUnder.under e = 100 - OverUnder.over e /\
  OverUnder.over e + OverUnder.under e = 100 /\
  (50 <= OverUnder.over e -> OverUnder.prediction e = "Over"%string) /\
  (OverUnder.over e < 50 -> OverUnder.prediction e = "Under"%string).
Proof.
  unfold over_under_entry.
  cbn [OverUnder.over OverUnder.under OverUnder.prediction].
  set (o := Py.round ((1 - Poisson.cdf (t - 0.5) mu) * 100) 1).
  assert (Hu : Py.round (100 - o) 1 = 100 - o) by apply round1_complement.
  split; [reflexivity |].
  split; [exact Hu |].
  split; [rewrite Hu; ring |].
  destruct (Rge_dec o 50); split; intros; try reflexivity; lra.
Qed.

(** The over percentage falls as the threshold counts more goals in. *)
Lemma over_non_increasing (mu : R) :
  0 <= mu ->
  OverUnder.over (over_under_entry mu 3.5) <= OverUnder.over (over_under_entry mu 2.5)
  /\ OverUnder.over (over_under_entry mu 2.5) <= OverUnder.over (over_under_entry mu 1.5).
Proof.
  intros Hmu. unfold over_under_entry. cbn [OverUnder.over].
  rewrite cdf_threshold_15, cdf_threshold_25, cdf_threshold_35. simpl.
  pose proof (pmf_nonneg 2 mu Hmu). pose proof (pmf_nonneg 3 mu Hmu).
  split; apply round_mono; lra.
Qed.

Lemma exp_6_ge_14 : 14 <= exp 6.
Proof.
  replace 6 with (3 + 3) by ring. rewrite exp_plus.
  pose proof (exp_ineq1_le 3). nra.
Qed.

(** Scenario C: total rate 6. *)
Lemma over_15_rate6 : 50 <= OverUnder.over (over_under_entry (3.0 + 3.0) 1.5).
Proof.
  unfold over_under_entry. cbn [OverUnder.over].
  rewrite cdf_threshold_15. simpl Poisson.pmf_upto.
  apply Rle_trans with (Py.round 50 1); [rewrite round1_50; lra |].
  apply round_mono.
  replace (3.0 + 3.0) with 6 by lra.
  unfold Poisson.pmf. simpl.
  pose proof exp_6_ge_14 as H6.
  pose proof (exp_pos 6) as Hp.
  rewrite exp_Ropp.
  assert (Hinv : / exp 6 <= / 14).
  { apply Rinv_le_contravar; lra. }
  pose proof (Rinv_0_lt_compat _ Hp).
  lra.
Qed.

(** With total rate 0 nothing is over any threshold. *)
Lemma over_rate0 (t : R) (n : nat) :
  INR n <= t - 0.5 < INR n + 1 ->
  OverUnder.over (over_under_entry (0 + 0) t) = 0.
Proof.
  intros Ht. unfold over_under_entry. cbn [OverUnder.over].
  rewrite (cdf_at_nat _ n) by exact Ht.
  rewrite Rplus_0_l, pmf_upto_rate0.
  replace ((1 - 1) * 100) with 0 by ring. apply round_0.
Qed.

(** A percentage strictly within 0.05 of 0 is reported as 0.0. *)
Lemma round1_small (y : R) : - (1 / 20) < y < 1 / 20 -> Py.round y 1 = 0.
Proof.
  intros Hy. unfold Py.round. rewrite (rint_near _ 0); simpl; lra.
Qed.

(** With total rate 0.01 the three over percentages are 0.0 as well. *)
Lemma over_small_rate :
  OverUnder.over (over_under_entry (0.01 + 0) 1.5) = 0 /\
  OverUnder.over (over_under_entry (0.01 + 0) 2.5) = 0 /\
  OverUnder.over (over_under_entry (0.01 + 0) 3.5) = 0.
Proof.
  unfold over_under_entry. cbn [OverUnder.over].
  rewrite cdf_threshold_15, cdf_threshold_25, cdf_threshold_35.
  replace (0.01 + 0) with 0.01 by lra.
  unfold Poisson.pmf_upto, Poisson.pmf. simpl pow. simpl fact. simpl INR.
  pose proof (exp_ineq1_le (Ropp 0.01)) as Hlo.
  assert (Hhi : exp (Ropp 0.01) <= / 1.01).
  { rewrite exp_Ropp. apply Rinv_le_contravar; [lra |].
    pose proof (exp_ineq1_le 0.01). lra. }
  assert (E101 : / 1.01 = 100 / 101) by lra.
  rewrite E101 in Hhi.
  set (E := exp (Ropp 0.01)) in *.
  repeat split; apply round1_small; lra.
Qed.

(** In binary64 too the two reported percentages add up to exactly 100.0,
    for each of the 1001 values [over] can take. *)
Lemma binary64_over_plus_under :
  forallb (fun k => PrimFloat.eqb (Binary64.over_plus_under k) 100%float)
          (seq 0 1001) = true.
Proof. vm_compute. reflexivity. Qed.

End OverUnderFacts.

Import OverUnderFacts.

(** ** The expected-goals record at the default records *)

Module DefaultMatch.

Lemma default_home_valid : valid_team_data default_home.
Proof. unfold valid_team_data, default_home; simpl. repeat split; lra. Qed.

Lemma default_away_valid : valid_team_data default_away.
Proof. unfold valid_team_data, default_away; simpl. repeat split; lra. Qed.

Lemma default_home_xg : home_xg default_home default_away = 7475 / 4969.
Proof.
  unfold home_xg, defensive_score, default_home, default_away.
  cbn [xg xgot_conceded tackles_rate ball_recoveries]. lra.
Qed.

Lemma default_away_xg : away_xg default_home default_away = 660 / 673.
Proof.
  unfold away_xg, defensive_score, default_home, default_away.
  cbn [xg xgot_conceded tackles_rate ball_recoveries]. lra.
Qed.

(** [round(x, 2)] of a value strictly within 0.005 of [z / 100]. *)
Lemma round2_near (x : R) (z : Z) :
  IZR z - 1 / 2 < x * 100 < IZR z + 1 / 2 -> Py.round x 2 = IZR z / 100.
Proof.
  intros Hx. unfold Py.round.
  replace (10 ^ 2) with 100 by (simpl; ring).
  now rewrite (rint_near _ z).
Qed.

Lemma default_round_home : Py.round (home_xg default_home default_away) 2 = 1.5.
Proof. rewrite default_home_xg, (round2_near _ 150); lra. Qed.

Lemma default_round_away : Py.round (away_xg default_home default_away) 2 = 0.98.
Proof. rewrite default_away_xg, (round2_near _ 98); lra. Qed.

Lemma default_round_total :
  Py.round (home_xg default_home default_away
            + away_xg default_home default_away) 2 = 2.49.
Proof. rewrite default_home_xg, default_away_xg, (round2_near _ 249); lra. Qed.

End DefaultMatch.

Import DefaultMatch.

(** ** The stable descending sort *)

Module SortFacts.

Section Sort.
Context {A : Type} (key : A -> R).

Lemma insert_desc_perm (x : A) (l : list A) :
  Permutation (insert_desc key x l) (x :: l).
Proof.
  induction l as [| y l IH]; simpl.
  - apply Permutation_refl.
  - destruct (Rlt_dec (key x) (key y)).
    + apply perm_trans with (y :: x :: l).
      * now apply perm_skip.
      * apply perm_swap.
    + apply Permutation_refl.
Qed.

Lemma sort_desc_perm (l : list A) : Permutation (sort_desc key l) l.
Proof.
  induction l as [| x l IH]; simpl.
  - apply perm_nil.
  - apply perm_trans with (x :: sort_desc key l).
    + apply insert_desc_perm.
    + now apply perm_skip.
Qed.

(** [before] is the order of the list handed to the sort; the sorted list is
    ordered by key, largest first, and by [before] among equal keys. *)
Variable before : A -> A -> Prop.

Lemma insert_desc_sorted (x : A) (s : list A) :
  StronglySorted (Spec.keyed_before key before) s -> Forall (before x) s ->
  StronglySorted (Spec.keyed_before key before) (insert_desc key x s).
Proof.
  induction s as [| y s IH]; intros Hs Hx; simpl.
  - constructor; constructor.
  - apply StronglySorted_inv in Hs. destruct Hs as [Hs Hy].
    inversion Hx as [| ? ? Hxy Hxs]; subst.
    destruct (Rlt_dec (key x) (key y)) as [Hlt | Hge].
    + constructor.
      * now apply IH.
      * apply (Permutation_Forall (Permutation_sym (insert_desc_perm x s))).
        constructor; [now left | exact Hy].
    + constructor.
      * now constructor.
      * constructor.
        -- destruct (Rlt_dec (key y) (key x)) as [Hyx | Hxy'].
           ++ now left.
           ++ right. split; [lra | exact Hxy].
        -- rewrite Forall_forall in Hy, Hxs |- *. intros z Hz.
           assert (Hzy : key z <= key y).
           { destruct (Hy z Hz) as [H | [H _]]; lra. }
           destruct (Rlt_dec (key z) (key x)) as [Hzx | Hxz].
           ++ now left.
           ++ right. split; [lra | now apply Hxs].
Qed.

Lemma sort_desc_sorted (l : list A) :
  StronglySorted before l -> StronglySorted (Spec.keyed_before key before) (sort_desc key l).
Proof.
  induction l as [| x l IH]; intros Hl; simpl.
  - constructor.
  - apply StronglySorted_inv in Hl. destruct Hl as [Hl Hx].
    apply insert_desc_sorted.
    + now apply IH.
    + apply (Permutation_Forall (Permutation_sym (sort_desc_perm l))), Hx.
Qed.

End Sort.

(** Sorting the images under [f] by [key] is sorting by [key] after [f]. *)
Lemma sort_desc_map {A B : Type} (key : B -> R) (f : A -> B) (l : list A) :
  sort_desc key (map f l) = map f (sort_desc (fun x => key (f x)) l).
Proof.
  induction l as [| x l IH]; simpl; [reflexivity |].
  rewrite IH. generalize (sort_desc (fun x => key (f x)) l) as s.
  induction s as [| y s IHs]; simpl; [reflexivity |].
  destruct (Rlt_dec (key (f x)) (key (f y))); simpl; [now rewrite IHs | reflexivity].
Qed.

Lemma StronglySorted_app {A : Type} (R : A -> A -> Prop) (l l' : list A) :
  StronglySorted R l -> StronglySorted R l' ->
  (forall x y, In x l -> In y l' -> R x y) ->
  StronglySorted R (l ++ l').
Proof.
  induction l as [| a l IH]; intros Hl Hl' Hc; simpl; [exact Hl' |].
  apply StronglySorted_inv in Hl. destruct Hl as [Hl Ha].
  constructor.
  - apply IH; auto. intros x y Hx Hy. apply Hc; [now right | exact Hy].
  - apply Forall_app. split; [exact Ha |].
    apply Forall_forall. intros y Hy. apply Hc; [now left | exact Hy].
Qed.

Lemma seq_sorted (start len : nat) : StronglySorted Nat.lt (seq start len).
Proof.
  revert start. induction len as [| len IH]; intros start; simpl.
  - constructor.
  - constructor; [apply IH |].
    apply Forall_forall. intros y Hy. apply in_seq in Hy. lia.
Qed.

Lemma list_prod_sorted (hs gs : list nat) :
  StronglySorted Nat.lt hs -> StronglySorted Nat.lt gs ->
  StronglySorted Spec.lex_lt (list_prod hs gs).
Proof.
  intros Hhs Hgs.
  induction hs as [| h hs IH]; simpl; [constructor |].
  apply StronglySorted_inv in Hhs. destruct Hhs as [Hhs Hh].
  apply StronglySorted_app.
  - clear -Hgs. induction gs as [| a gs IHg]; simpl; [constructor |].
    apply StronglySorted_inv in Hgs. destruct Hgs as [Hgs Ha].
    constructor; [now apply IHg |].
    apply Forall_map. revert Ha. apply Forall_impl.
    intros b Hab. right. simpl. now split.
  - now apply IH.
  - intros x y Hx Hy. apply in_map_iff in Hx. destruct Hx as (a & <- & _).
    destruct y as [h' a']. apply in_prod_iff in Hy. destruct Hy as [Hh' _].
    rewrite Forall_forall in Hh. left. simpl. now apply Hh.
Qed.

(** The loops visit the grid in ascending lexicographic order. *)
Lemma grid_sorted (n : nat) : StronglySorted Spec.lex_lt (Spec.grid n).
Proof. apply list_prod_sorted; apply seq_sorted. Qed.

(** A list already in the order of the result is left as it is. *)
Lemma sort_desc_sorted_id {A : Type} (key : A -> R) (before : A -> A -> Prop)
    (l : list A) :
  StronglySorted (Spec.keyed_before key before) l -> sort_desc key l = l.
Proof.
  induction l as [| x l IH]; intros Hl; simpl; [reflexivity |].
  apply StronglySorted_inv in Hl. destruct Hl as [Hl Hx].
  rewrite (IH Hl).
  destruct l as [| y l]; simpl; [reflexivity |].
  inversion Hx as [| ? ? Hxy _]; subst.
  destruct (Rlt_dec (key x) (key y)) as [Hlt | _]; [| reflexivity].
  destruct Hxy as [H | [H _]]; lra.
Qed.

Lemma StronglySorted_weaken {A : Type} (R R' : A -> A -> Prop) (l : list A) :
  (forall x y, R x y -> R' x y) -> StronglySorted R l -> StronglySorted R' l.
Proof.
  intros HR. induction 1 as [| x l Hl IH Hx]; constructor; [exact IH |].
  revert Hx. apply Forall_impl. intros y. apply HR.
Qed.

End SortFacts.

(** ** The scoreline ranker *)

Module ScorelineFacts.
Import SortFacts.

(** The list built by the two loops: one entry per cell of the 6 by 6 grid,
    in the order of the grid. *)
Lemma scoreline_probs_grid (hx ax : R) :
  scoreline_probs hx ax =
  map (fun c => scoreline_cell hx ax (fst c) (snd c)) (grid 6).
Proof. reflexivity. Qed.

(** The whole function: rank the cells, keep three, report them. *)
Lemma predict_scorelines_ranked (hx ax : R) :
  _predict_scorelines hx ax =
  map (reported hx ax) (firstn 3 (sort_desc (joint hx ax) (grid 6))).
Proof.
  unfold _predict_scorelines.
  rewrite scoreline_probs_grid, sort_desc_map, firstn_map, map_map.
  reflexivity.
Qed.

Lemma ranking_perm (hx ax : R) :
  Permutation (sort_desc (joint hx ax) (grid 6)) (grid 6).
Proof. apply sort_desc_perm. Qed.

Lemma ranking_sorted (hx ax : R) :
  StronglySorted (ranked_before hx ax) (sort_desc (joint hx ax) (grid 6)).
Proof. apply sort_desc_sorted, grid_sorted. Qed.

(** A cell ranked before another is reported with at least its percentage. *)
Lemma ranked_before_reported (hx ax : R) (c c' : nat * nat) :
  ranked_before hx ax c c' ->
  Scoreline.probability (reported hx ax c') <=
  Scoreline.probability (reported hx ax c).
Proof.
  intros Hr. unfold reported. cbn [Scoreline.probability].
  apply round_mono. destruct Hr as [Hlt | [Heq _]]; lra.
Qed.

(** With both rates 0 the cell (0,0) carries all the mass and every other
    cell ties at 0: the ranking is the grid itself, and the ties are
    reported in lexicographic order. *)
Lemma ranking_goalless : sort_desc (joint 0 0) (grid 6) = grid 6.
Proof.
  apply (sort_desc_sorted_id _ lex_lt).
  apply (StronglySorted_weaken lex_lt); [| apply grid_sorted].
  intros [h a] [h' a'] Hlex. unfold keyed_before.
  rewrite !joint_rate0. unfold lex_lt in Hlex. simpl in *.
  destruct h', a'; simpl; try (destruct h, a; simpl; (now right) || (left; lra)).
  lia.
Qed.

Example scorelines_goalless :
  _predict_scorelines 0 0 =
  [Scoreline.mk "0-0" 100; Scoreline.mk "0-1" 0; Scoreline.mk "0-2" 0].
Proof.
  rewrite predict_scorelines_ranked, ranking_goalless.
  cbn [grid seq list_prod map app firstn].
  unfold reported. rewrite !joint_rate0.
  cbn [fst snd Nat.eqb andb].
  rewrite Rmult_1_l, Rmult_0_l, round_0, round1_100.
  reflexivity.
Qed.

End ScorelineFacts.

Import SortFacts ScorelineFacts.

(** ** The loops over the values binary64 really holds: facts *)

Module FloatFacts.
Import Floats.

Section Ops.
Variable pmf : nat -> R -> R.
Variable mul : R -> R -> R.

Lemma wdl_with_inner (hx ax : R) (h : nat) (l : list nat) (x y z : R) :
  fold_left (wdl_cell_with pmf mul hx ax h) l (x, y, z) =
  (x + mass is_home_win (cell_prob pmf mul hx ax) (map (fun a => (h, a)) l),
   y + mass is_draw (cell_prob pmf mul hx ax) (map (fun a => (h, a)) l),
   z + mass is_away_win (cell_prob pmf mul hx ax) (map (fun a => (h, a)) l)).
Proof.
  revert x y z. induction l as [| a l IH]; intros x y z; simpl.
  - unfold mass. simpl. triple_ring.
  - set (mh := mass is_home_win (cell_prob pmf mul hx ax) (map (fun a => (h, a)) l)) in *.
    set (md := mass is_draw (cell_prob pmf mul hx ax) (map (fun a => (h, a)) l)) in *.
    set (ma := mass is_away_win (cell_prob pmf mul hx ax) (map (fun a => (h, a)) l)) in *.
    unfold is_home_win, is_draw, is_away_win, cell_prob. simpl fst. simpl snd.
    destruct (Nat.ltb_spec a h) as [Hah | Hah].
    + rewrite IH.
      destruct (Nat.eqb_spec h a); [lia |].
      destruct (Nat.ltb_spec h a); [lia |].
      triple_ring.
    + destruct (Nat.ltb_spec h a) as [Hha | Hha]; rewrite IH.
      * destruct (Nat.eqb_spec h a); [lia |]. triple_ring.
      * destruct (Nat.eqb_spec h a); [| lia]. triple_ring.
Qed.

Lemma wdl_with_outer (hx ax : R) (hs gs : list nat) (x y z : R) :
  fold_left (fun acc h => fold_left (wdl_cell_with pmf mul hx ax h) gs acc)
            hs (x, y, z) =
  (x + mass is_home_win (cell_prob pmf mul hx ax) (list_prod hs gs),
   y + mass is_draw (cell_prob pmf mul hx ax) (list_prod hs gs),
   z + mass is_away_win (cell_prob pmf mul hx ax) (list_prod hs gs)).
Proof.
  revert x y z. induction hs as [| h hs IH]; intros x y z; simpl.
  - unfold mass. simpl. triple_ring.
  - rewrite wdl_with_inner, IH. unfold mass. rewrite !sum_over_app.
    triple_ring.
Qed.

(** Whatever the masses and their products are, the loops add the product of
    each of the 64 cells to the bucket of its result. *)
Lemma wdl_buckets_with_mass (hx ax : R) :
  wdl_buckets_with pmf mul hx ax =
  (mass is_home_win (cell_prob pmf mul hx ax) (grid 8),
   mass is_draw (cell_prob pmf mul hx ax) (grid 8),
   mass is_away_win (cell_prob pmf mul hx ax) (grid 8)).
Proof.
  unfold wdl_buckets_with. rewrite wdl_with_outer. unfold grid.
  triple_ring.
Qed.

Lemma grid_sum_pos (f : nat * nat -> R) (n : nat) :
  (forall c, 0 <= f c) -> 0 < f (0%nat, 0%nat) -> 0 < sum_over f (grid (S n)).
Proof.
  intros Hf H0.
  change (grid (S n)) with ((0%nat, 0%nat) :: tl (grid (S n))).
  rewrite sum_over_cons.
  pose proof (sum_over_nonneg f (tl (grid (S n))) Hf). lra.
Qed.

Lemma round1_tenths (x : R) : Py.round x 1 = IZR (Py.rint (x * 10)) / 10.
Proof.
  unfold Py.round. replace (10 ^ 1) with 10 by (simpl; ring). reflexivity.
Qed.

(** The tenths of a rounded percentage. *)
Lemma tenths_range (x : R) :
  0 <= x <= 100 -> (0 <= Py.rint (x * 10) <= 1000)%Z.
Proof.
  intros [H0 H1]. split.
  - rewrite <- (rint_IZR 0). apply rint_mono. lra.
  - rewrite <- (rint_IZR 1000). apply rint_mono. lra.
Qed.

Lemma tenths_sum (a b c : R) :
  a + b + c = 100 ->
  (999 <= Py.rint (a * 10) + Py.rint (b * 10) + Py.rint (c * 10) <= 1001)%Z.
Proof.
  intros Hs.
  pose proof (rint_bound (a * 10)) as Ha.
  pose proof (rint_bound (b * 10)) as Hb.
  pose proof (rint_bound (c * 10)) as Hc.
  set (ka := Py.rint (a * 10)) in *.
  set (kb := Py.rint (b * 10)) in *.
  set (kc := Py.rint (c * 10)) in *.
  split.
  - assert (H : (998 < ka + kb + kc)%Z); [| lia].
    apply lt_IZR. rewrite !plus_IZR. lra.
  - assert (H : (ka + kb + kc < 1002)%Z); [| lia].
    apply lt_IZR. rewrite !plus_IZR. lra.
Qed.

(** The result of the estimator when no cell is negative and the cell (0,0)
    is not 0: three percentages with one decimal, each between 0.0 and
    100.0, whose tenths add up to 999, 1000 or 1001. *)
Lemma win_with_tenths (hx ax : R) :
  (forall c, 0 <= cell_prob pmf mul hx ax c) ->
  0 < cell_prob pmf mul hx ax (0%nat, 0%nat) ->
  let H := mass is_home_win (cell_prob pmf mul hx ax) (grid 8) in
  let D := mass is_draw (cell_prob pmf mul hx ax) (grid 8) in
  let A := mass is_away_win (cell_prob pmf mul hx ax) (grid 8) in
  0 < H + D + A /\
  exists k1 k2 k3 : Z,
    _calculate_win_probabilities_with pmf mul hx ax =
      Some (WinProbs.mk (IZR k1 / 10) (IZR k2 / 10) (IZR k3 / 10)) /\
    IZR k1 / 10 = Py.round (H / (H + D + A) * 100) 1 /\
    IZR k2 / 10 = Py.round (D / (H + D + A) * 100) 1 /\
    IZR k3 / 10 = Py.round (A / (H + D + A) * 100) 1 /\
    (0 <= k1 <= 1000)%Z /\ (0 <= k2 <= 1000)%Z /\ (0 <= k3 <= 1000)%Z /\
    (999 <= k1 + k2 + k3 <= 1001)%Z.
Proof.
  intros Hf H0 H D A.
  assert (HH : 0 <= H) by (apply mass_nonneg; exact Hf).
  assert (HD : 0 <= D) by (apply mass_nonneg; exact Hf).
  assert (HA : 0 <= A) by (apply mass_nonneg; exact Hf).
  assert (HT : 0 < H + D + A).
  { unfold H, D, A. rewrite mass_partition. now apply grid_sum_pos. }
  split; [exact HT |].
  assert (Hq : forall x, 0 <= x -> x <= H + D + A ->
                0 <= x / (H + D + A) * 100 <= 100).
  { intros x Hx0 Hx1.
    assert (0 <= x / (H + D + A) <= 1); [| lra].
    split.
    - apply Rmult_le_pos; [lra | left; now apply Rinv_0_lt_compat].
    - apply (Rmult_le_reg_r (H + D + A)); [lra |].
      replace (x / (H + D + A) * (H + D + A)) with x by (field; lra). lra. }
  exists (Py.rint (H / (H + D + A) * 100 * 10)),
         (Py.rint (D / (H + D + A) * 100 * 10)),
         (Py.rint (A / (H + D + A) * 100 * 10)).
  rewrite <- !round1_tenths.
  split.
  - unfold _calculate_win_probabilities_with.
    rewrite wdl_buckets_with_mass. fold H D A.
    destruct (Req_dec_T (H + D + A) 0) as [E | _]; [lra | reflexivity].
  - repeat (split; [reflexivity |]).
    split; [apply tenths_range, Hq; lra |].
    split; [apply tenths_range, Hq; lra |].
    split; [apply tenths_range, Hq; lra |].
    apply tenths_sum. field. lra.
Qed.

(** When every cell is 0 the total is 0 and no percentage comes out. *)
Lemma win_with_all_zero (hx ax : R) :
  (forall c, In c (grid 8) -> cell_prob pmf mul hx ax c = 0) ->
  wdl_buckets_with pmf mul hx ax = (0, 0, 0) /\
  _calculate_win_probabilities_with pmf mul hx ax = None.
Proof.
  intros Hz.
  assert (Hm : forall p, mass p (cell_prob pmf mul hx ax) (grid 8) = 0).
  { intros p. unfold mass.
    transitivity (sum_over (fun _ : nat * nat => 0) (grid 8));
      [| apply sum_over_zero].
    apply sum_over_ext. intros c Hc. rewrite (Hz c Hc).
    destruct (p c); reflexivity. }
  assert (Hb : wdl_buckets_with pmf mul hx ax = (0, 0, 0)).
  { rewrite wdl_buckets_with_mass, !Hm. reflexivity. }
  split; [exact Hb |].
  unfold _calculate_win_probabilities_with. rewrite Hb.
  destruct (Req_dec_T (0 + 0 + 0) 0) as [_ | N]; [reflexivity |].
  exfalso. apply N. ring.
Qed.

(** The list built by the two loops of [_predict_scorelines]. *)
Lemma scoreline_probs_with_grid (hx ax : R) :
  scoreline_probs_with pmf mul hx ax =
  map (fun c => scoreline_cell_with pmf mul hx ax (fst c) (snd c)) (grid 6).
Proof. reflexivity. Qed.

Lemma predict_scorelines_with_ranked (hx ax : R) :
  _predict_scorelines_with pmf mul hx ax =
  map (reported_with pmf mul hx ax)
      (firstn 3 (sort_desc (cell_prob pmf mul hx ax) (grid 6))).
Proof.
  unfold _predict_scorelines_with.
  rewrite scoreline_probs_with_grid, SortFacts.sort_desc_map, firstn_map, map_map.
  reflexivity.
Qed.

End Ops.

(** With the exact mass and the exact product the parametrised functions
    are the ones of [FootballPredictor]. *)
Lemma exact_buckets (hx ax : R) :
  wdl_buckets_with Poisson.pmf Rmult hx ax = wdl_buckets hx ax.
Proof. reflexivity. Qed.

Lemma exact_scorelines (hx ax : R) :
  _predict_scorelines_with Poisson.pmf Rmult hx ax = _predict_scorelines hx ax.
Proof. reflexivity. Qed.

(** *** Underflow *)

Lemma tiny_pos : 0 < tiny.
Proof. unfold tiny. apply Rinv_0_lt_compat, pow_lt. lra. Qed.

Lemma flush_nonneg (x : R) : 0 <= x -> 0 <= flush x.
Proof. intros Hx. unfold flush. destruct (Rle_dec (Rabs x) tiny); lra. Qed.

Lemma flush_small (x : R) : 0 <= x -> x <= tiny -> flush x = 0.
Proof.
  intros H0 H1. unfold flush. rewrite (Rabs_pos_eq x H0).
  destruct (Rle_dec x tiny); [reflexivity | contradiction].
Qed.

Lemma flush_large (x : R) : tiny < x -> flush x = x.
Proof.
  intros Hx. pose proof tiny_pos. unfold flush.
  rewrite (Rabs_pos_eq x) by lra.
  destruct (Rle_dec x tiny); [lra | reflexivity].
Qed.

Lemma exp_1_ge : 27 / 10 <= exp 1.
Proof.
  apply Rle_trans with (E1 1 5).
  - unfold E1. simpl. lra.
  - unfold E1. apply sum_incr; [apply E1_cvg |].
    intros k. apply Rmult_le_pos.
    + left. apply Rinv_0_lt_compat, INR_fact_lt_0.
    + apply pow_le. lra.
Qed.

Lemma exp_nat_ge (n : nat) : (27 / 10) ^ n <= exp (INR n).
Proof.
  induction n as [| n IH].
  - simpl. rewrite exp_0. lra.
  - rewrite S_INR, exp_plus. cbn [pow].
    pose proof exp_1_ge. pose proof (exp_pos (INR n)).
    assert (0 <= (27 / 10) ^ n) by (apply pow_le; lra).
    rewrite (Rmult_comm (27 / 10)). apply Rmult_le_compat; lra.
Qed.

Lemma exp_nat_le (n : nat) : exp (INR n) <= 3 ^ n.
Proof.
  induction n as [| n IH].
  - simpl. rewrite exp_0. lra.
  - rewrite S_INR, exp_plus. cbn [pow].
    pose proof exp_le_3. pose proof (exp_pos (INR n)). pose proof (exp_pos 1).
    rewrite (Rmult_comm 3). apply Rmult_le_compat; lra.
Qed.

(** At most [tiny]: the masses of 0 to 7 goals at rate 800. *)
Lemma pow_bound_800 : 800 ^ 7 * 2 ^ 1075 <= (27 / 10) ^ 800.
Proof.
  apply (Rmult_le_reg_r (10 ^ 800)); [apply pow_lt; lra |].
  rewrite <- Rpow_mult_distr.
  replace (27 / 10 * 10) with 27 by lra.
  rewrite !pow_IZR, <- !mult_IZR. apply IZR_le.
  apply Z.leb_le. vm_compute. reflexivity.
Qed.

Lemma pmf_800_underflows (k : nat) :
  (k <= 7)%nat -> 0 <= Poisson.pmf k 800 <= tiny.
Proof.
  intros Hk. split; [apply pmf_nonneg; lra |].
  unfold Poisson.pmf, tiny.
  assert (He : (27 / 10) ^ 800 <= exp 800).
  { assert (E : INR 800 = 800) by (rewrite INR_IZR_INZ; reflexivity).
    rewrite <- E. apply exp_nat_ge. }
  assert (Hp : 800 ^ k <= 800 ^ 7) by (apply Rle_pow; [lra | exact Hk]).
  assert (Hk0 : 0 < 800 ^ k) by (apply pow_lt; lra).
  assert (Hf : 1 <= INR (fact k)).
  { change 1 with (INR 1). apply le_INR. pose proof (lt_O_fact k). lia. }
  assert (H2 : 0 < 2 ^ 1075) by (apply pow_lt; lra).
  pose proof pow_bound_800 as Hb.
  pose proof (exp_pos 800) as Hx.
  rewrite exp_Ropp.
  apply (Rmult_le_reg_r (exp 800 * INR (fact k) * 2 ^ 1075)).
  { apply Rmult_lt_0_compat; [apply Rmult_lt_0_compat |]; lra. }
  replace (/ exp 800 * 800 ^ k / INR (fact k)
           * (exp 800 * INR (fact k) * 2 ^ 1075))
    with (800 ^ k * 2 ^ 1075) by (field; lra).
  replace (/ 2 ^ 1075 * (exp 800 * INR (fact k) * 2 ^ 1075))
    with (exp 800 * INR (fact k)) by (field; lra).
  apply Rle_trans with (800 ^ 7 * 2 ^ 1075).
  - apply Rmult_le_compat_r; lra.
  - apply Rle_trans with (exp 800 * 1); [lra |].
    apply Rmult_le_compat_l; lra.
Qed.

Lemma cells_800_underflow (c : nat * nat) :
  In c (grid 8) -> cell_prob pmf64 mul64 800 800 c = 0.
Proof.
  destruct c as [h a]. intros Hc. apply in_grid in Hc.
  unfold cell_prob, pmf64, mul64. simpl fst. simpl snd.
  destruct (pmf_800_underflows h ltac:(lia)) as [H0 H1].
  rewrite (flush_small _ H0 H1), Rmult_0_l.
  apply flush_small; [lra | left; apply tiny_pos].
Qed.

(** Above [tiny]: [exp(-t)] for [t] up to 600. *)
Lemma exp_600_above : tiny < exp (Ropp 600).
Proof.
  unfold tiny. rewrite exp_Ropp.
  assert (He : exp 600 <= 3 ^ 600).
  { assert (E : INR 600 = 600) by (rewrite INR_IZR_INZ; reflexivity).
    rewrite <- E. apply exp_nat_le. }
  assert (Hb : 3 ^ 600 < 2 ^ 1075).
  { rewrite !pow_IZR. apply IZR_lt. apply Z.ltb_lt. vm_compute. reflexivity. }
  pose proof (exp_pos 600).
  apply Rinv_lt_contravar; [| lra].
  apply Rmult_lt_0_compat; [lra | apply pow_lt; lra].
Qed.

Lemma exp_neg_above (t : R) : t <= 600 -> tiny < exp (- t).
Proof.
  intros Ht. apply Rlt_le_trans with (exp (Ropp 600)); [apply exp_600_above |].
  destruct Ht as [Hlt | ->]; [| lra].
  left. apply exp_increasing. lra.
Qed.

(** In the underflow model the cell (0,0) keeps its mass as long as the two
    rates add up to at most 600, and no cell is negative. *)
Lemma cells_in_domain (hx ax : R) :
  0 <= hx -> 0 <= ax -> hx + ax <= 600 ->
  (forall c, 0 <= cell_prob pmf64 mul64 hx ax c) /\
  cell_prob pmf64 mul64 hx ax (0%nat, 0%nat) = exp (- (hx + ax)) /\
  0 < cell_prob pmf64 mul64 hx ax (0%nat, 0%nat).
Proof.
  intros Hh Ha Hs.
  assert (Hc : forall c, 0 <= cell_prob pmf64 mul64 hx ax c).
  { intros c. unfold cell_prob, pmf64, mul64.
    apply flush_nonneg, Rmult_le_pos; apply flush_nonneg; now apply pmf_nonneg. }
  assert (E : cell_prob pmf64 mul64 hx ax (0%nat, 0%nat) = exp (- (hx + ax))).
  { unfold cell_prob, pmf64, mul64. simpl fst. simpl snd. rewrite !pmf_0.
    rewrite (flush_large (exp (- hx))) by (apply exp_neg_above; lra).
    rewrite (flush_large (exp (- ax))) by (apply exp_neg_above; lra).
    rewrite <- exp_plus. replace (- hx + - ax) with (- (hx + ax)) by ring.
    apply flush_large. now apply exp_neg_above. }
  split; [exact Hc |]. split; [exact E |].
  rewrite E. apply exp_pos.
Qed.

(** Read as decimals, 49.4, 26.0 and 24.7 add up to 100.1; added as
    binary64 floats they give 100.10000000000001, more than 0.1 away from
    100: the tenths of the three results are what adds up, not their float
    sum. *)
Lemma binary64_sum_of_tenths :
  PrimFloat.leb
    (PrimFloat.abs
       (PrimFloat.sub
          (PrimFloat.add
             (PrimFloat.add (PrimFloat.div 494 10) (PrimFloat.div 260 10))
             (PrimFloat.div 247 10))
          100))
    (PrimFloat.div 1 10) = false.
Proof. vm_compute. reflexivity. Qed.

End FloatFacts.

Import FloatFacts.

(** ** Where rounding keeps the over percentages apart *)

Module OverStrict.

(** Two percentages more than 0.1 apart are still apart after rounding to
    one decimal. *)
Lemma round1_strict (x y : R) : x + 0.1 < y -> Py.round x 1 < Py.round y 1.
Proof.
  intros Hxy. rewrite !round1_tenths.
  pose proof (rint_bound (x * 10)) as Hx.
  pose proof (rint_bound (y * 10)) as Hy.
  assert (Hk : (Py.rint (x * 10) < Py.rint (y * 10))%Z).
  { apply lt_IZR. lra. }
  apply IZR_lt in Hk. lra.
Qed.

(** A lower bound of the mass of [k] goals on a range of rates. *)
Lemma pmf_lower (k n : nat) (a mu : R) :
  0 <= a -> a <= mu -> mu <= INR n ->
  a ^ k / (INR (fact k) * 3 ^ n) <= Poisson.pmf k mu.
Proof.
  intros Ha Hmu Hn. unfold Poisson.pmf.
  assert (Hf : 0 < INR (fact k)) by apply INR_fact_lt_0.
  assert (H3 : 0 < 3 ^ n) by (apply pow_lt; lra).
  assert (Hp : a ^ k <= mu ^ k) by (apply pow_incr; lra).
  assert (Hp0 : 0 <= a ^ k) by (now apply pow_le).
  assert (He : / 3 ^ n <= exp (- mu)).
  { apply Rle_trans with (exp (- INR n)).
    - rewrite exp_Ropp. apply Rinv_le_contravar; [apply exp_pos |].
      apply exp_nat_le.
    - destruct Hn as [Hlt | ->]; [| lra].
      left. apply exp_increasing. lra. }
  assert (Hi : 0 < / 3 ^ n) by (now apply Rinv_0_lt_compat).
  replace (a ^ k / (INR (fact k) * 3 ^ n))
    with (/ 3 ^ n * a ^ k * / INR (fact k)) by (field; lra).
  unfold Rdiv. apply Rmult_le_compat_r.
  - left. now apply Rinv_0_lt_compat.
  - apply Rmult_le_compat; lra.
Qed.

(** Between total rates 0.5 and 9 the masses of 2 and of 3 goals exceed
    0.12 %. *)
Lemma masses_2_3_visible (mu : R) :
  0.5 <= mu -> mu <= 9 ->
  0.0012 < Poisson.pmf 2 mu /\ 0.0012 < Poisson.pmf 3 mu.
Proof.
  intros Hlo Hhi.
  assert (piece : forall (n : nat) (a : R),
            0 <= a -> a <= mu -> mu <= INR n ->
            0.0012 < a ^ 2 / (INR (fact 2) * 3 ^ n) ->
            0.0012 < a ^ 3 / (INR (fact 3) * 3 ^ n) ->
            0.0012 < Poisson.pmf 2 mu /\ 0.0012 < Poisson.pmf 3 mu).
  { intros n a Ha Hmu Hn B2 B3.
    pose proof (pmf_lower 2 n a mu Ha Hmu Hn).
    pose proof (pmf_lower 3 n a mu Ha Hmu Hn). lra. }
  destruct (Rle_dec mu 1) as [H1 | H1].
  { apply (piece 1%nat 0.5); simpl; lra. }
  destruct (Rle_dec mu 4) as [H4 | H4].
  { apply (piece 4%nat 1); simpl; lra. }
  destruct (Rle_dec mu 8) as [H8 | H8].
  { apply (piece 8%nat 4); simpl; lra. }
  apply (piece 9%nat 8); simpl; lra.
Qed.

(** There the three reported over percentages are strictly decreasing. *)
Lemma over_strictly_decreasing (mu : R) :
  0.5 <= mu -> mu <= 9 ->
  OverUnder.over (over_under_entry mu 3.5) < OverUnder.over (over_under_entry mu 2.5)
  /\ OverUnder.over (over_under_entry mu 2.5) < OverUnder.over (over_under_entry mu 1.5).
Proof.
  intros Hlo Hhi. unfold over_under_entry. cbn [OverUnder.over].
  rewrite cdf_threshold_15, cdf_threshold_25, cdf_threshold_35. simpl.
  destruct (masses_2_3_visible mu Hlo Hhi) as [M2 M3].
  split; apply round1_strict; lra.
Qed.

End OverStrict.

Import OverStrict.

(** ** The specified properties *)

(** C1.  On valid team records the defensive score is
    [0.40*(1/(xgot_conceded+0.1)) + 0.30*(tackles_rate/100) +
    0.30*(ball_recoveries/100)], the expected goals are
    [home.xg * 1.15 * (1/(away_def + 0.5))] and [away.xg * (1/(home_def + 0.5))],
    the home advantage multiplies the home side only (the away value is the
    same for every value of the multiplier), and records that differ only in
    the statistics read by the offensive score give the same expected goals. *)
Theorem C1_expected_goals (home away : TeamData) :
  valid_team_data home -> valid_team_data away ->
  (exists ho ao,
     calculate_team_strength home = Some (ho, Spec.defensive_score home) /\
     calculate_team_strength away = Some (ao, Spec.defensive_score away)) /\
  expected_goal_scalars 1.15 home away =
    Some (Spec.home_xg home away, Spec.away_xg home away) /\
  (exists p, predict_match_outcome home away = Some p /\
     expected_goals p =
       ExpectedGoals.mk (Py.round (Spec.home_xg home away) 2)
                        (Py.round (Spec.away_xg home away) 2)
                        (Py.round (Spec.home_xg home away + Spec.away_xg home away) 2)) /\
  (forall ha, exists h,
     expected_goal_scalars ha home away = Some (h, Spec.away_xg home away)) /\
  (forall home' away',
     Spec.same_but_offence home home' -> Spec.same_but_offence away away' ->
     expected_goal_scalars 1.15 home' away' = expected_goal_scalars 1.15 home away).
Proof.
  intros Hh Ha.
  pose proof (defensive_score_pos home Hh) as Hdh.
  pose proof (defensive_score_pos away Ha) as Hda.
  repeat split.
  - exists (Spec.offensive_score home), (Spec.offensive_score away).
    now rewrite !team_strength_valid.
  - now rewrite scalars_valid.
  - eexists. split.
    + unfold predict_match_outcome. now apply predict_valid.
    + reflexivity.
  - intros ha. eexists. now rewrite scalars_valid.
  - intros home' away' Eh Ea.
    rewrite (scalars_valid _ home away Hh Ha).
    destruct (same_but_offence_valid_strength home home' Eh Hh) as [oh Hsh].
    destruct (same_but_offence_valid_strength away away' Ea Ha) as [oa Hsa].
    unfold expected_goal_scalars. rewrite Hsh, Hsa. simpl.
    rewrite !div_some by lra. simpl.
    destruct Eh as (<- & _), Ea as (<- & _). reflexivity.
Qed.

Lemma C1_expected_goals_witness :
  valid_team_data Spec.default_home /\ valid_team_data Spec.default_away /\
  expected_goal_scalars 1.15 Spec.default_home Spec.default_away =
    Some (Spec.home_xg Spec.default_home Spec.default_away,
          Spec.away_xg Spec.default_home Spec.default_away).
Proof.
  assert (Hh : valid_team_data Spec.default_home).
  { unfold valid_team_data, Spec.default_home; simpl. repeat split; lra. }
  assert (Ha : valid_team_data Spec.default_away).
  { unfold valid_team_data, Spec.default_away; simpl. repeat split; lra. }
  split; [exact Hh | split; [exact Ha |]].
  exact (proj1 (proj2 (C1_expected_goals _ _ Hh Ha))).
Defined.

(** Not for every pair of non-negative rates: at rates 800 and 800 every
    mass of 0 to 7 goals is too small for binary64, every cell is 0.0, the
    total is 0.0 and the division gives no percentage at all. *)
Lemma C2_counterexample :
  0 <= 800 /\
  (forall k, (k <= 7)%nat -> Floats.pmf64 k 800 = 0) /\
  Floats.wdl_buckets_with Floats.pmf64 Floats.mul64 800 800 = (0, 0, 0) /\
  Floats._calculate_win_probabilities_with Floats.pmf64 Floats.mul64 800 800
    = None /\
  ~ (exists w,
       Floats._calculate_win_probabilities_with Floats.pmf64 Floats.mul64 800 800
         = Some w /\
       0 <= WinProbs.home_win w <= 100 /\ 0 <= WinProbs.draw w <= 100 /\
       0 <= WinProbs.away_win w <= 100 /\
       Rabs (WinProbs.home_win w + WinProbs.draw w + WinProbs.away_win w - 100)
         <= 0.1).
Proof.
  destruct (win_with_all_zero Floats.pmf64 Floats.mul64 800 800
              cells_800_underflow) as [Hb Hn].
  split; [lra |]. split; [| split; [exact Hb | split; [exact Hn |]]].
  - intros k Hk. unfold Floats.pmf64.
    destruct (pmf_800_underflows k Hk) as [H0 H1].
    now apply flush_small.
  - intros (w & Hw & _). rewrite Hn in Hw. discriminate.
Qed.

(** C2, on the rates it holds for.  Whatever floats the masses and their
    products are, as long as no cell of the grid is negative and the cell
    (0,0) is not 0.0, the loops of [_calculate_win_probabilities] visit the
    64 cells with home and away goals in 0..7 and add each cell to the
    bucket chosen by comparing home and away goals; the total is positive
    and the three results are the bucket sums divided by the total, times
    100, rounded to one decimal: three numbers [k / 10] with each [k]
    between 0 and 1000 and the three [k] adding up to 999, 1000 or 1001.
    With the masses and products of the underflow model this covers every
    pair of non-negative rates that add up to at most 600. *)
Theorem C2_win_probabilities_finite :
  (List.length (grid 8) = 64%nat /\
   forall h a, In (h, a) (grid 8) <-> (h <= 7 /\ a <= 7)%nat) /\
  (forall (pmf : nat -> R -> R) (mul : R -> R -> R) (hx ax : R),
     (forall c, 0 <= Floats.cell_prob pmf mul hx ax c) ->
     0 < Floats.cell_prob pmf mul hx ax (0%nat, 0%nat) ->
     let H := mass is_home_win (Floats.cell_prob pmf mul hx ax) (grid 8) in
     let D := mass is_draw (Floats.cell_prob pmf mul hx ax) (grid 8) in
     let A := mass is_away_win (Floats.cell_prob pmf mul hx ax) (grid 8) in
     Floats.wdl_buckets_with pmf mul hx ax = (H, D, A) /\
     0 < H + D + A /\
     exists k1 k2 k3 : Z,
       Floats._calculate_win_probabilities_with pmf mul hx ax =
         Some (WinProbs.mk (IZR k1 / 10) (IZR k2 / 10) (IZR k3 / 10)) /\
       IZR k1 / 10 = Py.round (H / (H + D + A) * 100) 1 /\
       IZR k2 / 10 = Py.round (D / (H + D + A) * 100) 1 /\
       IZR k3 / 10 = Py.round (A / (H + D + A) * 100) 1 /\
       (0 <= k1 <= 1000)%Z /\ (0 <= k2 <= 1000)%Z /\ (0 <= k3 <= 1000)%Z /\
       (999 <= k1 + k2 + k3 <= 1001)%Z) /\
  (forall hx ax : R,
     0 <= hx -> 0 <= ax -> hx + ax <= 600 ->
     exists k1 k2 k3 : Z,
       Floats._calculate_win_probabilities_with Floats.pmf64 Floats.mul64 hx ax =
         Some (WinProbs.mk (IZR k1 / 10) (IZR k2 / 10) (IZR k3 / 10)) /\
       (0 <= k1 <= 1000)%Z /\ (0 <= k2 <= 1000)%Z /\ (0 <= k3 <= 1000)%Z /\
       (999 <= k1 + k2 + k3 <= 1001)%Z).
Proof.
  split; [split; [apply (length_grid 8) | intros h a; rewrite in_grid; lia] |].
  split.
  - intros pmf mul hx ax Hf H0 H D A.
    split; [apply wdl_buckets_with_mass |].
    exact (win_with_tenths pmf mul hx ax Hf H0).
  - intros hx ax Hh Ha Hs.
    destruct (cells_in_domain hx ax Hh Ha Hs) as (Hf & _ & H0).
    destruct (win_with_tenths Floats.pmf64 Floats.mul64 hx ax Hf H0)
      as (_ & k1 & k2 & k3 & Hw & _ & _ & _ & R1 & R2 & R3 & Rs).
    exists k1, k2, k3. repeat split; try assumption; lia.
Qed.

Lemma C2_win_probabilities_finite_witness :
  0 <= 1 /\ 0 <= 2 /\ 1 + 2 <= 600 /\
  exists k1 k2 k3 : Z,
    Floats._calculate_win_probabilities_with Floats.pmf64 Floats.mul64 1 2 =
      Some (WinProbs.mk (IZR k1 / 10) (IZR k2 / 10) (IZR k3 / 10)) /\
    (0 <= k1 <= 1000)%Z /\ (0 <= k2 <= 1000)%Z /\ (0 <= k3 <= 1000)%Z /\
    (999 <= k1 + k2 + k3 <= 1001)%Z.
Proof.
  assert (H1 : 0 <= 1) by lra. assert (H2 : 0 <= 2) by lra.
  assert (H3 : 1 + 2 <= 600) by lra.
  split; [exact H1 | split; [exact H2 | split; [exact H3 |]]].
  exact (proj2 (proj2 C2_win_probabilities_finite) 1 2 H1 H2 H3).
Defined.

(** C3.  For non-negative rates the over/under dictionary has exactly the
    keys "1.5", "2.5", "3.5", in this order; the entry of threshold T has
    [over] equal to [1 - cdf(T - 0.5, home_xg + away_xg)] as a percentage
    rounded to one decimal, where the cdf at 1.5, 2.5, 3.5 is the mass of at
    most 1, 2, 3 goals; [under] is [100 - over], so [over + under = 100]
    exactly; and the label is "Over" when [over >= 50] and "Under"
    otherwise. *)
Theorem C3_over_under_entries (hx ax : R) :
  0 <= hx -> 0 <= ax ->
  let mu := hx + ax in
  let o15 := Py.round ((1 - Poisson.cdf (1.5 - 0.5) mu) * 100) 1 in
  let o25 := Py.round ((1 - Poisson.cdf (2.5 - 0.5) mu) * 100) 1 in
  let o35 := Py.round ((1 - Poisson.cdf (3.5 - 0.5) mu) * 100) 1 in
  let label := fun o : R =>
    if Rge_dec o 50 then "Over"%string else "Under"%string in
  _predict_over_under hx ax =
    [("1.5"%string, OverUnder.mk o15 (100 - o15) (label o15));
     ("2.5"%string, OverUnder.mk o25 (100 - o25) (label o25));
     ("3.5"%string, OverUnder.mk o35 (100 - o35) (label o35))] /\
  Poisson.cdf (1.5 - 0.5) mu = Poisson.pmf 0 mu + Poisson.pmf 1 mu /\
  Poisson.cdf (2.5 - 0.5) mu =
    Poisson.pmf 0 mu + Poisson.pmf 1 mu + Poisson.pmf 2 mu /\
  Poisson.cdf (3.5 - 0.5) mu =
    Poisson.pmf 0 mu + Poisson.pmf 1 mu + Poisson.pmf 2 mu + Poisson.pmf 3 mu /\
  (forall key e, In (key, e) (_predict_over_under hx ax) ->
     OverUnder.under e = 100 - OverUnder.over e /\
     OverUnder.over e + OverUnder.under e = 100 /\
     (50 <= OverUnder.over e -> OverUnder.prediction e = "Over"%string) /\
     (OverUnder.over e < 50 -> OverUnder.prediction e = "Under"%string)).
Proof.
  intros _ _ mu o15 o25 o35 label.
  rewrite predict_over_under_items. fold mu.
  split.
  - unfold over_under_entry. fold o15 o25 o35.
    unfold o15 at 2, o25 at 2, o35 at 2. rewrite !round1_complement.
    reflexivity.
  - split; [rewrite cdf_threshold_15; reflexivity |].
    split; [rewrite cdf_threshold_25; reflexivity |].
    split; [rewrite cdf_threshold_35; reflexivity |].
    intros key e [E | [E | [E | []]]]; inversion E; subst key e;
      apply over_under_entry_spec.
Qed.

Lemma C3_over_under_entries_witness :
  0 <= 1 /\ 0 <= 2 /\
  map fst (_predict_over_under 1 2) = ["1.5"; "2.5"; "3.5"]%string.
Proof.
  assert (H1 : 0 <= 1) by lra.
  assert (H2 : 0 <= 2) by lra.
  split; [exact H1 | split; [exact H2 |]].
  rewrite (proj1 (C3_over_under_entries 1 2 H1 H2)). reflexivity.
Defined.

(** C4.  For non-negative rates, and whatever floats the masses and their
    products are, the loops of [_predict_scorelines] list the 36 cells with
    both coordinates in 0..5 in ascending lexicographic order, each with the
    text "home-away" and the product of its two masses; the stable
    descending sort ranks them so that every cell is followed only by cells
    with a strictly smaller product, or with an equal product and
    lexicographically later; the result is exactly the first 3 cells of
    that ranking, each with its product as a percentage rounded to 1
    decimal, and the reported percentages are non-increasing. *)
Theorem C4_scorelines_ranked (pmf : nat -> R -> R) (mul : R -> R -> R)
    (hx ax : R) :
  0 <= hx -> 0 <= ax ->
  let key := fun c : nat * nat => mul (pmf (fst c) hx) (pmf (snd c) ax) in
  let listed := fun c : nat * nat =>
    Scoreline.mk (Py.str_of_nat (fst c) ++ "-" ++ Py.str_of_nat (snd c))
                 (key c) in
  let shown := fun c : nat * nat =>
    Scoreline.mk (Py.str_of_nat (fst c) ++ "-" ++ Py.str_of_nat (snd c))
                 (Py.round (key c * 100) 1) in
  Floats.scoreline_probs_with pmf mul hx ax = map listed (grid 6) /\
  List.length (grid 6) = 36%nat /\
  (forall h a, In (h, a) (grid 6) <-> (h <= 5 /\ a <= 5)%nat) /\
  StronglySorted lex_lt (grid 6) /\
  (exists c1 c2 c3 rest,
     sort_desc Scoreline.probability (Floats.scoreline_probs_with pmf mul hx ax)
       = map listed (c1 :: c2 :: c3 :: rest) /\
     Permutation (c1 :: c2 :: c3 :: rest) (grid 6) /\
     StronglySorted (keyed_before key lex_lt) (c1 :: c2 :: c3 :: rest) /\
     Floats._predict_scorelines_with pmf mul hx ax =
       [shown c1; shown c2; shown c3] /\
     Scoreline.probability (shown c3) <= Scoreline.probability (shown c2) /\
     Scoreline.probability (shown c2) <= Scoreline.probability (shown c1)) /\
  List.length (Floats._predict_scorelines_with pmf mul hx ax) = 3%nat /\
  Floats._predict_scorelines_with Poisson.pmf Rmult hx ax =
    _predict_scorelines hx ax.
Proof.
  intros _ _ key listed shown.
  split; [apply scoreline_probs_with_grid |].
  split; [apply (length_grid 6) |].
  split; [intros h a; rewrite in_grid; lia |].
  split; [apply grid_sorted |].
  assert (Hperm : Permutation (sort_desc key (grid 6)) (grid 6))
    by apply sort_desc_perm.
  assert (Hsorted : StronglySorted (keyed_before key lex_lt)
                      (sort_desc key (grid 6)))
    by apply sort_desc_sorted, grid_sorted.
  pose proof (predict_scorelines_with_ranked pmf mul hx ax) as Hres.
  change (Floats.cell_prob pmf mul hx ax) with key in Hres.
  change (Floats.reported_with pmf mul hx ax) with shown in Hres.
  assert (Hsort : sort_desc Scoreline.probability
                    (Floats.scoreline_probs_with pmf mul hx ax) =
                  map listed (sort_desc key (grid 6))).
  { rewrite scoreline_probs_with_grid, sort_desc_map. reflexivity. }
  pose proof (Permutation_length Hperm) as Hlen.
  rewrite (length_grid 6) in Hlen.
  destruct (sort_desc key (grid 6)) as [| c1 [| c2 [| c3 rest]]];
    try discriminate Hlen.
  cbn [firstn map] in Hres.
  split; [| split; [rewrite Hres; reflexivity | apply exact_scorelines]].
  exists c1, c2, c3, rest.
  split; [exact Hsort |]. split; [exact Hperm |].
  split; [exact Hsorted |]. split; [exact Hres |].
  apply StronglySorted_inv in Hsorted. destruct Hsorted as [Hs1 H1].
  apply StronglySorted_inv in Hs1. destruct Hs1 as [_ H2].
  inversion H1 as [| ? ? H12 _]; subst.
  inversion H2 as [| ? ? H23 _]; subst.
  unfold shown. cbn [Scoreline.probability].
  split; apply round_mono.
  - destruct H23 as [Hlt | [Heq _]]; lra.
  - destruct H12 as [Hlt | [Heq _]]; lra.
Qed.

Lemma C4_scorelines_ranked_witness :
  0 <= 1 /\ 0 <= 2 /\
  List.length
    (Floats._predict_scorelines_with Floats.pmf64 Floats.mul64 1 2) = 3%nat.
Proof.
  assert (H1 : 0 <= 1) by lra.
  assert (H2 : 0 <= 2) by lra.
  split; [exact H1 | split; [exact H2 |]].
  exact (proj1 (proj2 (proj2 (proj2 (proj2 (proj2
           (C4_scorelines_ranked Floats.pmf64 Floats.mul64 1 2 H1 H2))))))).
Defined.

(** C5.  For non-negative rates and non-negative [xgot_conceded], the BTTS
    probability is the rounded percentage of the product of the two scoring
    probabilities [1 - pmf(0, xg)], each multiplied by the factor of the
    opponent's [xgot_conceded] and clamped to at most 0.99; it lies in
    [0, 98.01]; the label is "Yes" when it is at least 50 and "No" below. *)
Theorem C5_btts (hx ax : R) (home away : TeamData) :
  0 <= hx -> 0 <= ax ->
  0 <= xgot_conceded home -> 0 <= xgot_conceded away ->
  let ph := Py.min 0.99 ((1 - Poisson.pmf 0 hx) *
                         Py.min 1.15 (1 + (xgot_conceded away - 1.0) * 0.1)) in
  let pa := Py.min 0.99 ((1 - Poisson.pmf 0 ax) *
                         Py.min 1.15 (1 + (xgot_conceded home - 1.0) * 0.1)) in
  let r := _predict_btts hx ax home away in
  Btts.probability r = Py.round (ph * pa * 100) 1 /\
  0 <= ph <= 0.99 /\ 0 <= pa <= 0.99 /\
  0 <= Btts.probability r <= 98.01 /\
  (50 <= Btts.probability r -> Btts.prediction r = "Yes"%string) /\
  (Btts.probability r < 50 -> Btts.prediction r = "No"%string).
Proof.
  intros Hh Ha Hch Hca ph pa r.
  pose proof (scoring_prob_range hx Hh) as Hsh.
  pose proof (scoring_prob_range ax Ha) as Hsa.
  pose proof (def_factor_range _ Hch) as Hfh.
  pose proof (def_factor_range _ Hca) as Hfa.
  assert (Hph : 0 <= ph <= 0.99) by (apply adjusted_range; unfold def_factor in *; lra).
  assert (Hpa : 0 <= pa <= 0.99) by (apply adjusted_range; unfold def_factor in *; lra).
  assert (Hr : Btts.probability r = Py.round (ph * pa * 100) 1) by reflexivity.
  split; [exact Hr |].
  split; [exact Hph |]. split; [exact Hpa |].
  assert (Hprod : 0 <= ph * pa * 100 <= 98.01) by nra.
  split; [rewrite Hr; split |].
  - apply Rle_trans with (Py.round 0 1).
    + rewrite round_0. lra.
    + apply round_mono. lra.
  - apply Rle_trans with (Py.round 98.01 1).
    + apply round_mono. lra.
    + unfold Py.round. rewrite (rint_near _ 980); simpl; lra.
  - unfold r, _predict_btts. cbn [Btts.probability Btts.prediction].
    destruct (Rge_dec _ 50) as [Hge | Hlt]; split; intros; try reflexivity; lra.
Qed.

Lemma C5_btts_witness :
  0 <= 1 /\ 0 <= 2 /\
  0 <= xgot_conceded default_home /\ 0 <= xgot_conceded default_away /\
  0 <= Btts.probability (_predict_btts 1 2 default_home default_away) <= 98.01.
Proof.
  assert (H1 : 0 <= 1) by lra.
  assert (H2 : 0 <= 2) by lra.
  assert (H3 : 0 <= xgot_conceded default_home) by (simpl; lra).
  assert (H4 : 0 <= xgot_conceded default_away) by (simpl; lra).
  repeat (split; [assumption |]).
  exact (proj1 (proj2 (proj2 (proj2
           (C5_btts 1 2 default_home default_away H1 H2 H3 H4))))).
Defined.

(** Strict decrease fails at the rates 0.01 and 0: the three over
    percentages are all 0.0, so none is strictly above the next. *)
Lemma C6_counterexample :
  exists e1 e2 e3,
    dict_get "1.5" (_predict_over_under 0.01 0) = Some e1 /\
    dict_get "2.5" (_predict_over_under 0.01 0) = Some e2 /\
    dict_get "3.5" (_predict_over_under 0.01 0) = Some e3 /\
    OverUnder.over e1 = 0 /\ OverUnder.over e2 = 0 /\ OverUnder.over e3 = 0 /\
    ~ (OverUnder.over e1 > OverUnder.over e2 /\
       OverUnder.over e2 > OverUnder.over e3).
Proof.
  destruct over_small_rate as (E1 & E2 & E3).
  rewrite predict_over_under_items.
  do 3 eexists.
  split; [reflexivity |]. split; [reflexivity |]. split; [reflexivity |].
  split; [exact E1 |]. split; [exact E2 |]. split; [exact E3 |].
  rewrite E1, E2. lra.
Qed.

(** C6, where it holds.  For non-negative rates the reported over
    percentages never increase across the thresholds,
    over("1.5") >= over("2.5") >= over("3.5"); they are strictly
    decreasing, over("1.5") > over("2.5") > over("3.5"), whenever the total
    rate is between 0.5 and 9; and for rates 3.0 and 3.0 they are strictly
    decreasing and the "1.5" label is "Over". *)
Theorem C6_over_decreasing :
  (forall hx ax : R, 0 <= hx -> 0 <= ax ->
     exists e1 e2 e3,
       dict_get "1.5" (_predict_over_under hx ax) = Some e1 /\
       dict_get "2.5" (_predict_over_under hx ax) = Some e2 /\
       dict_get "3.5" (_predict_over_under hx ax) = Some e3 /\
       OverUnder.over e3 <= OverUnder.over e2 /\
       OverUnder.over e2 <= OverUnder.over e1) /\
  (forall hx ax : R, 0 <= hx -> 0 <= ax -> 0.5 <= hx + ax -> hx + ax <= 9 ->
     exists e1 e2 e3,
       dict_get "1.5" (_predict_over_under hx ax) = Some e1 /\
       dict_get "2.5" (_predict_over_under hx ax) = Some e2 /\
       dict_get "3.5" (_predict_over_under hx ax) = Some e3 /\
       OverUnder.over e1 > OverUnder.over e2 /\
       OverUnder.over e2 > OverUnder.over e3) /\
  (exists e1 e2 e3,
     dict_get "1.5" (_predict_over_under 3.0 3.0) = Some e1 /\
     dict_get "2.5" (_predict_over_under 3.0 3.0) = Some e2 /\
     dict_get "3.5" (_predict_over_under 3.0 3.0) = Some e3 /\
     OverUnder.prediction e1 = "Over"%string /\
     OverUnder.over e1 > OverUnder.over e2 /\
     OverUnder.over e2 > OverUnder.over e3).
Proof.
  split; [| split].
  - intros hx ax Hh Ha. rewrite predict_over_under_items.
    do 3 eexists.
    split; [reflexivity |]. split; [reflexivity |]. split; [reflexivity |].
    apply over_non_increasing. lra.
  - intros hx ax Hh Ha Hlo Hhi. rewrite predict_over_under_items.
    do 3 eexists.
    split; [reflexivity |]. split; [reflexivity |]. split; [reflexivity |].
    destruct (over_strictly_decreasing (hx + ax) Hlo Hhi) as [H32 H21].
    split; lra.
  - rewrite predict_over_under_items.
    do 3 eexists.
    split; [reflexivity |]. split; [reflexivity |]. split; [reflexivity |].
    split.
    + apply (over_under_entry_spec (3.0 + 3.0) 1.5), over_15_rate6.
    + destruct (over_strictly_decreasing (3.0 + 3.0)) as [H32 H21]; [lra | lra |].
      split; lra.
Qed.

Lemma C6_over_decreasing_witness :
  0 <= 1 /\ 0 <= 2 /\ 0.5 <= 1 + 2 /\ 1 + 2 <= 9 /\
  exists e1 e2 e3,
    dict_get "1.5" (_predict_over_under 1 2) = Some e1 /\
    dict_get "2.5" (_predict_over_under 1 2) = Some e2 /\
    dict_get "3.5" (_predict_over_under 1 2) = Some e3 /\
    OverUnder.over e1 > OverUnder.over e2 /\
    OverUnder.over e2 > OverUnder.over e3.
Proof.
  assert (H1 : 0 <= 1) by lra. assert (H2 : 0 <= 2) by lra.
  assert (H3 : 0.5 <= 1 + 2) by lra. assert (H4 : 1 + 2 <= 9) by lra.
  split; [exact H1 |]. split; [exact H2 |]. split; [exact H3 |].
  split; [exact H4 |].
  exact (proj1 (proj2 C6_over_decreasing) 1 2 H1 H2 H3 H4).
Defined.



(** C8.  With both rates 0 the joint probability is 1 on the cell (0,0) and
    0 on every other cell; the win probabilities are draw 100.0, home win
    0.0 and away win 0.0; the BTTS probability is 0.0 with label "No"; and
    the engine reports exactly this on valid records whose [xg] are both 0. *)
Theorem C8_goalless :
  (joint 0 0 (0%nat, 0%nat) = 1 /\
   forall c, c <> (0%nat, 0%nat) -> joint 0 0 c = 0) /\
  _calculate_win_probabilities 0 0 = WinProbs.mk 0 100 0 /\
  (forall home away, _predict_btts 0 0 home away = Btts.mk "No" 0) /\
  (forall home away,
     valid_team_data home -> valid_team_data away ->
     xg home = 0 -> xg away = 0 ->
     exists p, predict_match_outcome home away = Some p /\
       win_probabilities p = WinProbs.mk 0 100 0 /\
       btts p = Btts.mk "No" 0).
Proof.
  split; [split |].
  - rewrite joint_rate0. reflexivity.
  - intros [h a] Hc. rewrite joint_rate0. simpl.
    destruct h, a; simpl; try reflexivity. now elim Hc.
  - split; [apply win_probabilities_rate0 |].
    split; [apply btts_rate0 |].
    intros home away Hh Ha Eh Ea.
    pose proof (predict_valid 1.15 home away Hh Ha) as Hp. cbv zeta in Hp.
    rewrite Eh, Ea in Hp. rewrite !Rmult_0_l in Hp.
    eexists. split; [exact Hp |].
    cbn [win_probabilities btts].
    now rewrite win_probabilities_rate0, btts_rate0.
Qed.

Lemma C8_goalless_witness :
  exists p,
    predict_match_outcome (mkTeamData 0 0 0 0 0 0 0 0 0)
                          (mkTeamData 0 0 0 0 0 0 0 0 0) = Some p /\
    win_probabilities p = WinProbs.mk 0 100 0 /\
    btts p = Btts.mk "No" 0.
Proof.
  assert (Hv : valid_team_data (mkTeamData 0 0 0 0 0 0 0 0 0)).
  { unfold valid_team_data. simpl. repeat split; lra. }
  exact (proj2 (proj2 (proj2 C8_goalless)) _ _ Hv Hv eq_refl eq_refl).
Defined.

(** C9.  For a non-negative [xgot_conceded] the defensive factor
    [min(1.15, 1 + (xgot_conceded - 1.0) * 0.1)] lies in [0.9, 1.15]; there
    is no lower clamp: below 1.0 the factor is below 1 and the adjusted
    scoring probability is strictly smaller than the base probability, and
    at 0 the factor is 0.9 (a cut of 10%). *)
Theorem C9_def_factor (xc : R) :
  0 <= xc ->
  def_factor xc = Py.min 1.15 (1 + (xc - 1.0) * 0.1) /\
  0.9 <= def_factor xc <= 1.15 /\
  (xc < 1.0 -> def_factor xc < 1) /\
  (xc < 1.0 -> forall p, 0 < p -> Py.min 0.99 (p * def_factor xc) < p) /\
  def_factor 0 = 0.9.
Proof.
  intros Hxc.
  split; [reflexivity |].
  split; [now apply def_factor_range |].
  split; [apply def_factor_below_1 |].
  split; [| apply def_factor_0].
  intros Hlt p Hp.
  pose proof (def_factor_below_1 xc Hlt) as Hf.
  apply Rle_lt_trans with (p * def_factor xc); [apply min_le_r |].
  nra.
Qed.

Lemma C9_def_factor_witness :
  0 <= 0.5 /\ 0.9 <= def_factor 0.5 <= 1.15.
Proof.
  assert (H : 0 <= 0.5) by lra.
  split; [exact H |].
  exact (proj1 (proj2 (C9_def_factor 0.5 H))).
Defined.

(** C10.  Whenever the engine returns, [expected_goals.home] and [.away]
    are the two scalars rounded to 2 decimals and [expected_goals.total] is
    the 2-decimal rounding of the sum of the unrounded scalars; at the
    default records of the form the engine reports home 1.5, away 0.98 and
    total 2.49, which is not home + away. *)
Theorem C10_total_rounds_the_sum :
  (forall (home away : TeamData) (p : MatchPrediction),
     predict_match_outcome home away = Some p ->
     exists h a,
       expected_goal_scalars 1.15 home away = Some (h, a) /\
       ExpectedGoals.home (expected_goals p) = Py.round h 2 /\
       ExpectedGoals.away (expected_goals p) = Py.round a 2 /\
       ExpectedGoals.total (expected_goals p) = Py.round (h + a) 2) /\
  (exists p,
     predict_match_outcome default_home default_away = Some p /\
     ExpectedGoals.home (expected_goals p) = 1.5 /\
     ExpectedGoals.away (expected_goals p) = 0.98 /\
     ExpectedGoals.total (expected_goals p) = 2.49 /\
     ExpectedGoals.total (expected_goals p) <>
       ExpectedGoals.home (expected_goals p) + ExpectedGoals.away (expected_goals p)).
Proof.
  split.
  - intros home away p Hp.
    unfold predict_match_outcome, predict_match_outcome_with in Hp.
    destruct (expected_goal_scalars 1.15 home away) as [[h a] |];
      simpl in Hp; [| discriminate].
    injection Hp as <-. exists h, a. repeat split; reflexivity.
  - pose proof (predict_valid 1.15 default_home default_away
                  default_home_valid default_away_valid) as Hp.
    cbv zeta in Hp.
    eexists. split; [exact Hp |].
    cbn [expected_goals ExpectedGoals.home ExpectedGoals.away ExpectedGoals.total].
    fold (home_xg default_home default_away).
    fold (away_xg default_home default_away).
    rewrite default_round_home, default_round_away, default_round_total.
    repeat split; lra.
Qed.

Lemma C10_total_rounds_the_sum_witness :
  exists p h a,
    predict_match_outcome default_home default_away = Some p /\
    expected_goal_scalars 1.15 default_home default_away = Some (h, a) /\
    ExpectedGoals.total (expected_goals p) = Py.round (h + a) 2.
Proof.
  pose proof (predict_valid 1.15 default_home default_away
                default_home_valid default_away_valid) as Hp.
  cbv zeta in Hp.
  destruct (proj1 C10_total_rounds_the_sum _ _ _ Hp) as (h & a & Hs & _ & _ & Ht).
  eexists. exists h, a.
  split; [exact Hp |]. split; [exact Hs | exact Ht].
Defined.

(** ** Further properties of the engine *)

(** *** The Poisson mass is a probability *)

Module PoissonBounds.

(** The partial sums of the mass function, through the exponential series. *)
Lemma pmf_upto_series (n : nat) (mu : R) :
  Poisson.pmf_upto n mu = exp (- mu) * E1 mu n.
Proof.
  unfold E1. induction n as [| n IH].
  - simpl. unfold Poisson.pmf. simpl. field.
  - cbn [Poisson.pmf_upto sum_f_R0]. rewrite IH. unfold Poisson.pmf.
    field. apply INR_fact_neq_0.
Qed.

Lemma pmf_upto_le_1 (n : nat) (mu : R) : 0 <= mu -> Poisson.pmf_upto n mu <= 1.
Proof.
  intros Hmu. rewrite pmf_upto_series.
  assert (Hs : E1 mu n <= exp mu).
  { unfold E1. apply sum_incr.
    - apply E1_cvg.
    - intros k. apply Rmult_le_pos.
      + left. apply Rinv_0_lt_compat, INR_fact_lt_0.
      + now apply pow_le. }
  pose proof (exp_pos (- mu)) as Hp.
  apply Rle_trans with (exp (- mu) * exp mu).
  - apply Rmult_le_compat_l; lra.
  - rewrite <- exp_plus. replace (- mu + mu) with 0 by ring.
    rewrite exp_0. lra.
Qed.

Lemma pmf_le_upto (n : nat) (mu : R) :
  0 <= mu -> Poisson.pmf n mu <= Poisson.pmf_upto n mu.
Proof.
  intros Hmu. destruct n as [| n]; simpl; [lra |].
  pose proof (pmf_upto_pos n mu Hmu). lra.
Qed.

Lemma pmf_le_1 (n : nat) (mu : R) : 0 <= mu -> Poisson.pmf n mu <= 1.
Proof.
  intros Hmu. apply Rle_trans with (Poisson.pmf_upto n mu).
  - now apply pmf_le_upto.
  - now apply pmf_upto_le_1.
Qed.

Lemma joint_le_1 (hx ax : R) (c : nat * nat) :
  0 <= hx -> 0 <= ax -> joint hx ax c <= 1.
Proof.
  intros Hh Ha. unfold joint.
  pose proof (pmf_nonneg (fst c) hx Hh). pose proof (pmf_le_1 (fst c) hx Hh).
  pose proof (pmf_nonneg (snd c) ax Ha). pose proof (pmf_le_1 (snd c) ax Ha).
  nra.
Qed.

(** Rounding a percentage keeps it a percentage. *)
Lemma round1_percent (x : R) : 0 <= x <= 100 -> 0 <= Py.round x 1 <= 100.
Proof.
  intros [H0 H1]. split.
  - apply Rle_trans with (Py.round 0 1); [rewrite round_0; lra |].
    now apply round_mono.
  - apply Rle_trans with (Py.round 100 1); [now apply round_mono |].
    rewrite round1_100. lra.
Qed.

End PoissonBounds.

(** *** Team strength and expected goals, beyond the valid records *)

Module StrengthMore.

(** [calculate_team_strength] returns as soon as its one divisor is not 0. *)
Lemma team_strength_some (d : TeamData) :
  xgot_conceded d + 0.1 <> 0 ->
  calculate_team_strength d =
    Some (Spec.offensive_score d, Spec.defensive_score d).
Proof.
  intros Hc. unfold calculate_team_strength.
  rewrite div_some by exact Hc. simpl. f_equal. f_equal.
  - unfold Spec.offensive_score, w_xg, w_total_shots, w_shots_on_target,
      w_xgot, w_xa, w_passes_rate. ring.
  - unfold Spec.defensive_score, w_xgot_conceded, w_tackles_rate,
      w_ball_recoveries. ring.
Qed.

Lemma team_strength_none (d : TeamData) :
  xgot_conceded d + 0.1 = 0 -> calculate_team_strength d = None.
Proof.
  intros Hc. unfold calculate_team_strength, Py.div.
  destruct (Req_dec_T (xgot_conceded d + 0.1) 0); [reflexivity | contradiction].
Qed.

Lemma div_none (x y : R) : y = 0 -> Py.div x y = None.
Proof.
  intros Hy. unfold Py.div.
  destruct (Req_dec_T y 0); [reflexivity | contradiction].
Qed.

(** The defensive score of a record with a non-negative [xgot_conceded]:
    its reciprocal term is between 0 and 4. *)
Lemma reciprocal_term_range (x : R) : 0 <= x -> 0 < 1 / (x + 0.1) <= 10.
Proof.
  intros Hx. split.
  - apply Rdiv_lt_0_compat; lra.
  - apply (Rmult_le_reg_r (x + 0.1)); [lra |].
    replace (1 / (x + 0.1) * (x + 0.1)) with 1 by (field; lra). lra.
Qed.

Lemma reciprocal_antitone (x y : R) :
  0 <= x -> x <= y -> 1 / (y + 0.1) <= 1 / (x + 0.1).
Proof.
  intros Hx Hxy. unfold Rdiv. rewrite !Rmult_1_l.
  apply Rinv_le_contravar; lra.
Qed.

Lemma reciprocal_half_antitone (s t : R) :
  0 <= s -> s <= t -> 1 / (t + 0.5) <= 1 / (s + 0.5).
Proof.
  intros Hs Hst. unfold Rdiv. rewrite !Rmult_1_l.
  apply Rinv_le_contravar; lra.
Qed.

Lemma reciprocal_half_range (s : R) : 0 <= s -> 0 < 1 / (s + 0.5) <= 2.
Proof.
  intros Hs. split.
  - apply Rdiv_lt_0_compat; lra.
  - apply (Rmult_le_reg_r (s + 0.5)); [lra |].
    replace (1 / (s + 0.5) * (s + 0.5)) with 1 by (field; lra). lra.
Qed.

Lemma in_form_range_valid (d : TeamData) :
  App.in_form_range d -> valid_team_data d.
Proof. unfold App.in_form_range, valid_team_data. intuition. Qed.

End StrengthMore.

Import PoissonBounds StrengthMore.

(** X1.  [predict_match_outcome] raises [ZeroDivisionError] when the
    [xgot_conceded] of either team is -0.1 (the divisor [xgot_conceded + 0.1]
    is then 0), and it returns whenever [xgot_conceded], [tackles_rate] and
    [ball_recoveries] of both teams are non-negative, whatever the other
    statistics are. *)
Theorem X1_engine_raises_or_returns (home away : TeamData) :
  (xgot_conceded home = -0.1 \/ xgot_conceded away = -0.1 ->
   predict_match_outcome home away = None) /\
  (0 <= xgot_conceded home -> 0 <= tackles_rate home ->
   0 <= ball_recoveries home ->
   0 <= xgot_conceded away -> 0 <= tackles_rate away ->
   0 <= ball_recoveries away ->
   exists p, predict_match_outcome home away = Some p).
Proof.
  unfold predict_match_outcome, predict_match_outcome_with, expected_goal_scalars.
  split.
  - intros [E | E].
    + rewrite (team_strength_none home) by lra. reflexivity.
    + destruct (Req_dec_T (xgot_conceded home + 0.1) 0) as [Hh | Hh].
      * rewrite (team_strength_none home Hh). reflexivity.
      * rewrite (team_strength_some home Hh), (team_strength_none away) by lra.
        reflexivity.
  - intros Ch Th Bh Ca Ta Ba.
    rewrite (team_strength_some home), (team_strength_some away) by lra.
    cbn [Py.bind].
    destruct (reciprocal_term_range _ Ch) as [Rh _].
    destruct (reciprocal_term_range _ Ca) as [Ra _].
    assert (Dh : 0 < Spec.defensive_score home)
      by (unfold Spec.defensive_score; lra).
    assert (Da : 0 < Spec.defensive_score away)
      by (unfold Spec.defensive_score; lra).
    rewrite !div_some by lra. cbn [Py.bind].
    eexists. reflexivity.
Qed.

Lemma X1_engine_raises_or_returns_witness :
  predict_match_outcome (mkTeamData 1 0 0 0 0 0 0 0 (-0.1)) default_away = None /\
  exists p, predict_match_outcome default_home default_away = Some p.
Proof.
  split.
  - apply (proj1 (X1_engine_raises_or_returns _ default_away)).
    left. reflexivity.
  - apply (proj2 (X1_engine_raises_or_returns default_home default_away));
      simpl; lra.
Defined.

(** X2.  The defensive score is "higher is better": a team that concedes no
    more (non-negative) xGOT and has no lower tackle rate and ball
    recoveries gets no lower defensive score. *)
Theorem X2_defensive_score_monotone (d d' : TeamData) (o o' s s' : R) :
  0 <= xgot_conceded d -> xgot_conceded d <= xgot_conceded d' ->
  tackles_rate d' <= tackles_rate d ->
  ball_recoveries d' <= ball_recoveries d ->
  calculate_team_strength d = Some (o, s) ->
  calculate_team_strength d' = Some (o', s') ->
  s' <= s.
Proof.
  intros H0 Hc Ht Hb Hs Hs'.
  rewrite team_strength_some in Hs by lra.
  rewrite team_strength_some in Hs' by lra.
  injection Hs as _ <-. injection Hs' as _ <-.
  unfold Spec.defensive_score.
  pose proof (reciprocal_antitone _ _ H0 Hc). lra.
Qed.

Lemma X2_defensive_score_monotone_witness :
  exists o o' s s',
    calculate_team_strength default_home = Some (o, s) /\
    calculate_team_strength default_away = Some (o', s') /\
    s' <= s.
Proof.
  assert (Hh := team_strength_some default_home ltac:(simpl; lra)).
  assert (Ha := team_strength_some default_away ltac:(simpl; lra)).
  do 4 eexists. split; [exact Hh |]. split; [exact Ha |].
  apply (X2_defensive_score_monotone default_home default_away _ _ _ _
           ltac:(simpl; lra) ltac:(simpl; lra) ltac:(simpl; lra)
           ltac:(simpl; lra) Hh Ha).
Defined.

(** X3.  The offensive score never decreases when any of the six attacking
    statistics increases. *)
Theorem X3_offensive_score_monotone (d d' : TeamData) (o o' s s' : R) :
  xg d <= xg d' -> total_shots d <= total_shots d' ->
  shots_on_target d <= shots_on_target d' -> xgot d <= xgot d' ->
  xa d <= xa d' -> passes_rate d <= passes_rate d' ->
  calculate_team_strength d = Some (o, s) ->
  calculate_team_strength d' = Some (o', s') ->
  o <= o'.
Proof.
  intros H1 H2 H3 H4 H5 H6 Hs Hs'.
  unfold calculate_team_strength in Hs, Hs'.
  destruct (Py.div 1 (xgot_conceded d + 0.1)); [| discriminate].
  destruct (Py.div 1 (xgot_conceded d' + 0.1)); [| discriminate].
  simpl in Hs, Hs'. injection Hs as <- _. injection Hs' as <- _.
  unfold w_xg, w_total_shots, w_shots_on_target, w_xgot, w_xa, w_passes_rate.
  lra.
Qed.

Lemma X3_offensive_score_monotone_witness :
  exists o o' s s',
    calculate_team_strength default_away = Some (o, s) /\
    calculate_team_strength default_home = Some (o', s') /\
    o <= o'.
Proof.
  assert (Hh := team_strength_some default_home ltac:(simpl; lra)).
  assert (Ha := team_strength_some default_away ltac:(simpl; lra)).
  do 4 eexists. split; [exact Ha |]. split; [exact Hh |].
  apply (X3_offensive_score_monotone default_away default_home _ _ _ _
           ltac:(simpl; lra) ltac:(simpl; lra) ltac:(simpl; lra)
           ltac:(simpl; lra) ltac:(simpl; lra) ltac:(simpl; lra) Ha Hh).
Defined.

(** *** Which side the win probabilities favour *)

Module WinMore.




(** The win probabilities on swapped rates. *)
Lemma win_probabilities_swap (a b : R) :
  WinProbs.home_win (_calculate_win_probabilities a b) =
    WinProbs.away_win (_calculate_win_probabilities b a) /\
  WinProbs.away_win (_calculate_win_probabilities a b) =
    WinProbs.home_win (_calculate_win_probabilities b a).
Proof.
  rewrite !win_probabilities_mass.
  cbn [WinProbs.home_win WinProbs.away_win].
  rewrite (mass_home_swap a b), (mass_draw_swap a b), <- (mass_home_swap b a).
  set (H := mass is_home_win (joint b a) (grid 8)).
  set (D := mass is_draw (joint b a) (grid 8)).
  set (A := mass is_away_win (joint b a) (grid 8)).
  replace (A + D + H) with (H + D + A) by ring.
  split; reflexivity.
Qed.


(** A side that cannot score cannot win. *)
Lemma mass_away_scoreless (hx : R) (n : nat) :
  mass is_away_win (joint hx 0) (grid n) = 0.
Proof.
  unfold mass.
  transitivity (sum_over (fun _ : nat * nat => 0) (grid n));
    [| apply sum_over_zero].
  apply sum_over_ext. intros [h g] _. unfold is_away_win, joint. simpl.
  destruct (Nat.ltb_spec h g) as [Hlt | _]; [| reflexivity].
  destruct g as [| g]; [lia |]. rewrite pmf_S_rate0. ring.
Qed.

Lemma away_win_rate0 (hx : R) :
  WinProbs.away_win (_calculate_win_probabilities hx 0) = 0.
Proof.
  rewrite win_probabilities_mass. cbn [WinProbs.away_win].
  rewrite mass_away_scoreless. unfold Rdiv. rewrite !Rmult_0_l. apply round_0.
Qed.

Lemma home_win_rate0 (ax : R) :
  WinProbs.home_win (_calculate_win_probabilities 0 ax) = 0.
Proof. rewrite (proj1 (win_probabilities_swap 0 ax)). apply away_win_rate0. Qed.

Lemma btts_rate0_home (ax : R) (home away : TeamData) :
  _predict_btts 0 ax home away = Btts.mk "No" 0.
Proof.
  unfold _predict_btts. rewrite pmf_0_rate0.
  replace (1 - 1) with 0 by ring. rewrite Rmult_0_l.
  assert (Hm : Py.min 0.99 0 = 0).
  { unfold Py.min. destruct (Rlt_dec 0 0.99); lra. }
  rewrite Hm, !Rmult_0_l, round_0.
  destruct (Rge_dec 0 50); [lra | reflexivity].
Qed.

Lemma btts_rate0_away (hx : R) (home away : TeamData) :
  _predict_btts hx 0 home away = Btts.mk "No" 0.
Proof.
  unfold _predict_btts. rewrite pmf_0_rate0.
  replace (1 - 1) with 0 by ring. rewrite Rmult_0_l.
  assert (Hm : Py.min 0.99 0 = 0).
  { unfold Py.min. destruct (Rlt_dec 0 0.99); lra. }
  rewrite Hm, Rmult_0_r, Rmult_0_l, round_0.
  destruct (Rge_dec 0 50); [lra | reflexivity].
Qed.

End WinMore.

Import WinMore.

(** X4.  On records within the ranges of the form the engine returns, and
    the reported expected goals are bounded: home in [0, 23], away in
    [0, 20], total in [0, 43]. *)
Theorem X4_form_expected_goals_bounded (home away : TeamData) :
  App.in_form_range home -> App.in_form_range away ->
  exists p, predict_match_outcome home away = Some p /\
    0 <= ExpectedGoals.home (expected_goals p) <= 23 /\
    0 <= ExpectedGoals.away (expected_goals p) <= 20 /\
    0 <= ExpectedGoals.total (expected_goals p) <= 43.
Proof.
  intros Fh Fa.
  pose proof (in_form_range_valid home Fh) as Hh.
  pose proof (in_form_range_valid away Fa) as Ha.
  pose proof (predict_valid 1.15 home away Hh Ha) as Hp. cbv zeta in Hp.
  eexists. split; [exact Hp |].
  cbn [expected_goals ExpectedGoals.home ExpectedGoals.away ExpectedGoals.total].
  pose proof (defensive_score_pos home Hh) as Dh.
  pose proof (defensive_score_pos away Ha) as Da.
  destruct (reciprocal_half_range (Spec.defensive_score away)) as [Ra0 Ra2]; [lra |].
  destruct (reciprocal_half_range (Spec.defensive_score home)) as [Rh0 Rh2]; [lra |].
  set (ra := 1 / (Spec.defensive_score away + 0.5)) in *.
  set (rh := 1 / (Spec.defensive_score home + 0.5)) in *.
  destruct Fh as ((Hx0 & Hx1) & _), Fa as ((Ax0 & Ax1) & _).
  assert (Bh : 0 <= xg home * 1.15 * ra <= 23) by nra.
  assert (Ba : 0 <= xg away * rh <= 20) by nra.
  assert (R0 : forall x, 0 <= x -> 0 <= Py.round x 2).
  { intros x Hx. apply Rle_trans with (Py.round 0 2);
      [rewrite round_0; lra | now apply round_mono]. }
  assert (Rz : forall x (z : Z), x <= IZR z -> Py.round x 2 <= IZR z).
  { intros x z Hx. apply Rle_trans with (Py.round (IZR z) 2);
      [now apply round_mono |].
    replace (IZR z) with (IZR (z * 100) / 10 ^ 2) at 1
      by (rewrite mult_IZR; simpl; field).
    rewrite round_decimal, mult_IZR. simpl. lra. }
  repeat split.
  - apply R0; lra.
  - apply (Rz _ 23%Z); lra.
  - apply R0; lra.
  - apply (Rz _ 20%Z); lra.
  - apply R0; lra.
  - apply (Rz _ 43%Z); lra.
Qed.

Lemma X4_form_expected_goals_bounded_witness :
  exists p, predict_match_outcome default_home default_away = Some p /\
    0 <= ExpectedGoals.home (expected_goals p) <= 23.
Proof.
  assert (Fh : App.in_form_range default_home).
  { unfold App.in_form_range, default_home; simpl. repeat split; lra. }
  assert (Fa : App.in_form_range default_away).
  { unfold App.in_form_range, default_away; simpl. repeat split; lra. }
  destruct (X4_form_expected_goals_bounded _ _ Fh Fa) as (p & Hp & Hb & _).
  exists p. split; [exact Hp | exact Hb].
Defined.

(** X5.  Against a better defence a team is expected to score no more: if
    the away record is replaced by one that concedes no more xGOT and has
    no lower tackle rate and ball recoveries, the home expected-goal scalar
    does not increase, and the away scalar is unchanged when the away [xg]
    is. *)
Theorem X5_better_defence_fewer_goals (home away away' : TeamData) (h a h' a' : R) :
  valid_team_data home -> valid_team_data away -> valid_team_data away' ->
  xgot_conceded away' <= xgot_conceded away ->
  tackles_rate away <= tackles_rate away' ->
  ball_recoveries away <= ball_recoveries away' ->
  xg away = xg away' ->
  expected_goal_scalars 1.15 home away = Some (h, a) ->
  expected_goal_scalars 1.15 home away' = Some (h', a') ->
  h' <= h /\ a' = a.
Proof.
  intros Hh Ha Ha' Hc Ht Hb Hx Hs Hs'.
  rewrite scalars_valid in Hs by assumption.
  rewrite scalars_valid in Hs' by assumption.
  injection Hs as <- <-. injection Hs' as <- <-.
  split; [| now rewrite Hx].
  pose proof (defensive_score_pos away Ha) as Da.
  pose proof (defensive_score_pos away' Ha') as Da'.
  assert (Hd : Spec.defensive_score away <= Spec.defensive_score away').
  { unfold Spec.defensive_score.
    destruct Ha' as (_ & _ & _ & _ & _ & _ & _ & _ & Hc0).
    pose proof (reciprocal_antitone _ _ Hc0 Hc). lra. }
  pose proof (reciprocal_half_antitone _ _ (Rlt_le _ _ Da) Hd) as Hr.
  destruct Hh as (Hx0 & _).
  apply Rmult_le_compat_l; [lra | exact Hr].
Qed.

Lemma X5_better_defence_fewer_goals_witness :
  exists h a h' a',
    expected_goal_scalars 1.15 default_home default_away = Some (h, a) /\
    expected_goal_scalars 1.15 default_home
      (mkTeamData 1.2 10 4 1.0 0.8 72.0 70.0 50 1.0) = Some (h', a') /\
    h' <= h /\ a' = a.
Proof.
  assert (Hh := default_home_valid). assert (Ha := default_away_valid).
  assert (Ha' : valid_team_data (mkTeamData 1.2 10 4 1.0 0.8 72.0 70.0 50 1.0)).
  { unfold valid_team_data. simpl. repeat split; lra. }
  assert (Hs := scalars_valid 1.15 default_home default_away Hh Ha).
  assert (Hs' := scalars_valid 1.15 default_home _ Hh Ha').
  do 4 eexists. split; [exact Hs |]. split; [exact Hs' |].
  apply (X5_better_defence_fewer_goals default_home default_away
           (mkTeamData 1.2 10 4 1.0 0.8 72.0 70.0 50 1.0)
           _ _ _ _ Hh Ha Ha'
           ltac:(simpl; lra) ltac:(simpl; lra) ltac:(simpl; lra)
           eq_refl Hs Hs').
Defined.





(** X8.  A side whose [xg] is 0 cannot win and cannot score: on records
    within the ranges of the form with away [xg] 0 the engine reports away
    win 0.0 and BTTS 0.0 with label "No"; likewise home win 0.0 when the
    home [xg] is 0. *)
Theorem X8_scoreless_side (home away : TeamData) :
  App.in_form_range home -> App.in_form_range away ->
  (xg away = 0 ->
   exists p, predict_match_outcome home away = Some p /\
     WinProbs.away_win (win_probabilities p) = 0 /\
     btts p = Btts.mk "No" 0) /\
  (xg home = 0 ->
   exists p, predict_match_outcome home away = Some p /\
     WinProbs.home_win (win_probabilities p) = 0 /\
     btts p = Btts.mk "No" 0).
Proof.
  intros Fh Fa.
  pose proof (in_form_range_valid home Fh) as Hh.
  pose proof (in_form_range_valid away Fa) as Ha.
  pose proof (predict_valid 1.15 home away Hh Ha) as Hp. cbv zeta in Hp.
  split; intros E; rewrite E in Hp; rewrite ?Rmult_0_l in Hp;
    (eexists; split; [exact Hp |]); cbn [win_probabilities btts].
  - split; [apply away_win_rate0 | apply btts_rate0_away].
  - split; [apply home_win_rate0 | apply btts_rate0_home].
Qed.

Lemma X8_scoreless_side_witness :
  exists p,
    predict_match_outcome default_home (mkTeamData 0 0 0 0 0 0 0 0 0) = Some p /\
    WinProbs.away_win (win_probabilities p) = 0 /\
    btts p = Btts.mk "No" 0.
Proof.
  assert (Fh : App.in_form_range default_home).
  { unfold App.in_form_range, default_home; simpl. repeat split; lra. }
  assert (Fz : App.in_form_range (mkTeamData 0 0 0 0 0 0 0 0 0)).
  { unfold App.in_form_range. simpl. repeat split; lra. }
  exact (proj1 (X8_scoreless_side _ _ Fh Fz) eq_refl).
Defined.

(** *** Monotonicity and mirror images of BTTS and over/under *)

Module BttsMore.

Lemma min_mono_r (c x y : R) : x <= y -> Py.min c x <= Py.min c y.
Proof.
  intros Hxy. unfold Py.min.
  destruct (Rlt_dec x c), (Rlt_dec y c); lra.
Qed.

Lemma def_factor_mono (x y : R) : x <= y -> def_factor x <= def_factor y.
Proof. intros Hxy. unfold def_factor. apply min_mono_r. lra. Qed.

Lemma scoring_prob_mono (x y : R) :
  x <= y -> 1 - Poisson.pmf 0 x <= 1 - Poisson.pmf 0 y.
Proof.
  intros [Hlt | ->]; [| lra].
  rewrite !pmf_0.
  assert (exp (- y) < exp (- x)) by (apply exp_increasing; lra). lra.
Qed.

(** The clamped, adjusted scoring probability grows with the rate and with
    the opponent's [xgot_conceded]. *)
Lemma adjusted_mono (x x' c c' : R) :
  0 <= x -> x <= x' -> 0 <= c -> c <= c' ->
  0 <= Py.min 0.99 ((1 - Poisson.pmf 0 x) * def_factor c) /\
  Py.min 0.99 ((1 - Poisson.pmf 0 x) * def_factor c) <=
  Py.min 0.99 ((1 - Poisson.pmf 0 x') * def_factor c').
Proof.
  intros Hx Hxx Hc Hcc.
  pose proof (scoring_prob_range x Hx) as Hs.
  pose proof (scoring_prob_mono x x' Hxx) as Hm.
  pose proof (def_factor_range c Hc) as Hf.
  pose proof (def_factor_mono c c' Hcc) as Hfm.
  split.
  - apply adjusted_range; lra.
  - apply min_mono_r. nra.
Qed.

Lemma btts_yes_iff (hx ax : R) (home away : TeamData) :
  Btts.prediction (_predict_btts hx ax home away) = "Yes"%string <->
  50 <= Btts.probability (_predict_btts hx ax home away).
Proof.
  unfold _predict_btts. cbn [Btts.prediction Btts.probability].
  destruct (Rge_dec _ 50) as [Hge | Hlt]; split; intros H;
    try reflexivity; try lra; discriminate.
Qed.

Lemma over_label_iff (mu t : R) :
  OverUnder.prediction (over_under_entry mu t) = "Over"%string <->
  50 <= OverUnder.over (over_under_entry mu t).
Proof.
  unfold over_under_entry. cbn [OverUnder.prediction OverUnder.over].
  destruct (Rge_dec _ 50) as [Hge | Hlt]; split; intros H;
    try reflexivity; try lra; discriminate.
Qed.

(** The over probability of an entry, for the three thresholds of the
    engine, is a probability. *)
Lemma over_prob_range (mu : R) (n : nat) :
  0 <= mu -> 0 <= (1 - Poisson.pmf_upto n mu) * 100 <= 100.
Proof.
  intros Hmu.
  pose proof (pmf_upto_le_1 n mu Hmu). pose proof (pmf_upto_pos n mu Hmu).
  lra.
Qed.

Lemma over_under_entry_range (mu t : R) (n : nat) :
  0 <= mu -> INR n <= t - 0.5 < INR n + 1 ->
  0 <= OverUnder.over (over_under_entry mu t) <= 100 /\
  0 <= OverUnder.under (over_under_entry mu t) <= 100.
Proof.
  intros Hmu Ht.
  destruct (over_under_entry_spec mu t) as (Ho & Hu & _).
  assert (Hr : 0 <= OverUnder.over (over_under_entry mu t) <= 100).
  { rewrite Ho, (cdf_at_nat _ n) by exact Ht.
    apply round1_percent. now apply over_prob_range. }
  split; [exact Hr |]. rewrite Hu. lra.
Qed.

End BttsMore.

Import BttsMore.

(** X9.  The BTTS probability never decreases when either rate or either
    team's [xgot_conceded] increases (all non-negative), and a "Yes" stays a
    "Yes". *)
Theorem X9_btts_monotone (hx hx' ax ax' : R) (home home' away away' : TeamData) :
  0 <= hx -> hx <= hx' -> 0 <= ax -> ax <= ax' ->
  0 <= xgot_conceded home -> xgot_conceded home <= xgot_conceded home' ->
  0 <= xgot_conceded away -> xgot_conceded away <= xgot_conceded away' ->
  Btts.probability (_predict_btts hx ax home away) <=
    Btts.probability (_predict_btts hx' ax' home' away') /\
  (Btts.prediction (_predict_btts hx ax home away) = "Yes"%string ->
   Btts.prediction (_predict_btts hx' ax' home' away') = "Yes"%string).
Proof.
  intros Hh Hhh Ha Haa Hch Hchh Hca Hcaa.
  assert (Hle : Btts.probability (_predict_btts hx ax home away) <=
                Btts.probability (_predict_btts hx' ax' home' away')).
  { unfold _predict_btts. cbn [Btts.probability].
    destruct (adjusted_mono hx hx' _ _ Hh Hhh Hca Hcaa) as [P0 P1].
    destruct (adjusted_mono ax ax' _ _ Ha Haa Hch Hchh) as [Q0 Q1].
    apply round_mono. nra. }
  split; [exact Hle |].
  rewrite !btts_yes_iff. lra.
Qed.

Lemma X9_btts_monotone_witness :
  Btts.probability (_predict_btts 1 1 default_home default_home) <=
  Btts.probability (_predict_btts 2 3 default_away default_away).
Proof.
  apply (X9_btts_monotone 1 2 1 3 default_home default_away
           default_home default_away);
    simpl; lra.
Defined.

(** X10.  Mirror image: over/under depends on the two rates only through
    their sum, and BTTS treats the two sides alike, so swapping the rates
    (and the records) leaves both unchanged; with the home-advantage
    multiplier set to 1 the engine on swapped valid records reports the
    same over/under dictionary and the same BTTS entry. *)
Theorem X10_mirror_over_under_btts :
  (forall a b : R, _predict_over_under a b = _predict_over_under b a) /\
  (forall (a b : R) (home away : TeamData),
     _predict_btts a b home away = _predict_btts b a away home) /\
  (forall home away : TeamData,
     valid_team_data home -> valid_team_data away ->
     exists p q,
       predict_match_outcome_with 1 home away = Some p /\
       predict_match_outcome_with 1 away home = Some q /\
       over_under p = over_under q /\ btts p = btts q).
Proof.
  assert (Hou : forall a b : R, _predict_over_under a b = _predict_over_under b a).
  { intros a b. rewrite !predict_over_under_items.
    now rewrite (Rplus_comm a b). }
  assert (Hbt : forall (a b : R) (home away : TeamData),
            _predict_btts a b home away = _predict_btts b a away home).
  { intros a b home away. unfold _predict_btts.
    set (ph := Py.min 0.99 ((1 - Poisson.pmf 0 a) * def_factor (xgot_conceded away))).
    set (pa := Py.min 0.99 ((1 - Poisson.pmf 0 b) * def_factor (xgot_conceded home))).
    now rewrite (Rmult_comm pa ph). }
  split; [exact Hou |]. split; [exact Hbt |].
  intros home away Hh Ha.
  pose proof (predict_valid 1 home away Hh Ha) as Hp.
  pose proof (predict_valid 1 away home Ha Hh) as Hq.
  cbv zeta in Hp, Hq.
  replace (xg home * 1 * (1 / (defensive_score away + 0.5)))
    with (xg home * (1 / (defensive_score away + 0.5))) in Hp by ring.
  replace (xg away * 1 * (1 / (defensive_score home + 0.5)))
    with (xg away * (1 / (defensive_score home + 0.5))) in Hq by ring.
  eexists. eexists.
  split; [exact Hp |]. split; [exact Hq |].
  cbn [over_under btts]. split; [apply Hou | apply Hbt].
Qed.

Lemma X10_mirror_over_under_btts_witness :
  exists p q,
    predict_match_outcome_with 1 default_home default_away = Some p /\
    predict_match_outcome_with 1 default_away default_home = Some q /\
    over_under p = over_under q /\ btts p = btts q.
Proof.
  exact (proj2 (proj2 X10_mirror_over_under_btts) _ _
           default_home_valid default_away_valid).
Defined.

(** X11.  For non-negative rates every entry of the over/under dictionary
    has [over] and [under] in [0, 100], and is labelled "Over" exactly when
    [over] is at least [under]. *)
Theorem X11_over_under_range (hx ax : R) :
  0 <= hx -> 0 <= ax ->
  forall key e, In (key, e) (_predict_over_under hx ax) ->
    0 <= OverUnder.over e <= 100 /\ 0 <= OverUnder.under e <= 100 /\
    (OverUnder.prediction e = "Over"%string <->
     OverUnder.under e <= OverUnder.over e).
Proof.
  intros Hh Ha key e Hin. rewrite predict_over_under_items in Hin.
  assert (Hmu : 0 <= hx + ax) by lra.
  assert (Hgen : forall t n, INR n <= t - 0.5 < INR n + 1 ->
            let e := over_under_entry (hx + ax) t in
            0 <= OverUnder.over e <= 100 /\ 0 <= OverUnder.under e <= 100 /\
            (OverUnder.prediction e = "Over"%string <->
             OverUnder.under e <= OverUnder.over e)).
  { intros t n Ht e0.
    destruct (over_under_entry_range (hx + ax) t n Hmu Ht) as [Ho Hu].
    split; [exact Ho |]. split; [exact Hu |].
    unfold e0. rewrite over_label_iff.
    destruct (over_under_entry_spec (hx + ax) t) as (_ & Hun & _).
    rewrite Hun. split; lra. }
  destruct Hin as [E | [E | [E | []]]]; inversion E; subst key e.
  - apply (Hgen 1.5 1%nat). simpl. lra.
  - apply (Hgen 2.5 2%nat). simpl. lra.
  - apply (Hgen 3.5 3%nat). simpl. lra.
Qed.

Lemma X11_over_under_range_witness :
  0 <= OverUnder.over (over_under_entry (1 + 2) 2.5) <= 100.
Proof.
  assert (H1 : 0 <= 1) by lra. assert (H2 : 0 <= 2) by lra.
  apply (X11_over_under_range 1 2 H1 H2 "2.5"%string).
  rewrite predict_over_under_items. right. left. reflexivity.
Defined.

(** X12.  The three labels are consistent: for non-negative rates, if a
    threshold is labelled "Over" then so is every lower threshold. *)
Theorem X12_over_labels_consistent (hx ax : R) (e1 e2 e3 : OverUnder.t) :
  0 <= hx -> 0 <= ax ->
  dict_get "1.5" (_predict_over_under hx ax) = Some e1 ->
  dict_get "2.5" (_predict_over_under hx ax) = Some e2 ->
  dict_get "3.5" (_predict_over_under hx ax) = Some e3 ->
  (OverUnder.prediction e3 = "Over"%string ->
   OverUnder.prediction e2 = "Over"%string) /\
  (OverUnder.prediction e2 = "Over"%string ->
   OverUnder.prediction e1 = "Over"%string).
Proof.
  intros Hh Ha G1 G2 G3. rewrite predict_over_under_items in G1, G2, G3.
  cbn in G1, G2, G3.
  injection G1 as <-. injection G2 as <-. injection G3 as <-.
  destruct (over_non_increasing (hx + ax) ltac:(lra)) as [H32 H21].
  rewrite !over_label_iff. split; lra.
Qed.

Lemma X12_over_labels_consistent_witness :
  (OverUnder.prediction (over_under_entry (1 + 2) 3.5) = "Over"%string ->
   OverUnder.prediction (over_under_entry (1 + 2) 2.5) = "Over"%string) /\
  (OverUnder.prediction (over_under_entry (1 + 2) 2.5) = "Over"%string ->
   OverUnder.prediction (over_under_entry (1 + 2) 1.5) = "Over"%string).
Proof.
  assert (H1 : 0 <= 1) by lra. assert (H2 : 0 <= 2) by lra.
  exact (X12_over_labels_consistent 1 2 _ _ _ H1 H2 eq_refl eq_refl eq_refl).
Defined.

(** *** The three reported scorelines *)

Module ScorelineMore.

Lemma lex_lt_irrefl (c : nat * nat) : ~ lex_lt c c.
Proof. unfold lex_lt. lia. Qed.

Lemma StronglySorted_NoDup {A : Type} (R : A -> A -> Prop) (l : list A) :
  (forall x, ~ R x x) -> StronglySorted R l -> NoDup l.
Proof.
  intros Hirr. induction 1 as [| x l Hl IH Hx]; constructor; [| exact IH].
  intros Hin. rewrite Forall_forall in Hx. exact (Hirr x (Hx x Hin)).
Qed.

Lemma grid_NoDup (n : nat) : NoDup (grid n).
Proof.
  apply (StronglySorted_NoDup lex_lt); [apply lex_lt_irrefl | apply grid_sorted].
Qed.

(** The ranking has at least three cells. *)
Lemma ranking_shape (hx ax : R) :
  exists c1 c2 c3 rest,
    sort_desc (joint hx ax) (grid 6) = c1 :: c2 :: c3 :: rest.
Proof.
  pose proof (Permutation_length (ranking_perm hx ax)) as Hlen.
  rewrite (length_grid 6) in Hlen.
  destruct (sort_desc (joint hx ax) (grid 6)) as [| c1 [| c2 [| c3 rest]]];
    try discriminate Hlen.
  now exists c1, c2, c3, rest.
Qed.

(** A goal count up to 5 prints as its one digit. *)
Lemma str_of_nat_digit (n : nat) :
  (n <= 5)%nat ->
  Py.str_of_nat n = String (Ascii.ascii_of_nat (48 + n)) EmptyString.
Proof.
  intros Hn.
  do 6 (destruct n as [| n]; [reflexivity |]). lia.
Qed.

Lemma scoreline_text_inj (hx ax : R) (c c' : nat * nat) :
  (fst c <= 5)%nat /\ (snd c <= 5)%nat ->
  (fst c' <= 5)%nat /\ (snd c' <= 5)%nat ->
  Scoreline.scoreline (reported hx ax c) = Scoreline.scoreline (reported hx ax c') ->
  c = c'.
Proof.
  destruct c as [h a], c' as [h' a']. simpl fst. simpl snd.
  intros [Hh Ha] [Hh' Ha']. unfold reported. cbn [Scoreline.scoreline fst snd].
  rewrite !str_of_nat_digit by assumption. simpl.
  intros E. injection E as E1 E2.
  apply (f_equal Ascii.nat_of_ascii) in E1, E2.
  rewrite !Ascii.nat_ascii_embedding in E1, E2 by lia.
  f_equal; lia.
Qed.

Lemma reported_percent (hx ax : R) (c : nat * nat) :
  0 <= hx -> 0 <= ax ->
  0 <= Scoreline.probability (reported hx ax c) <= 100.
Proof.
  intros Hh Ha. unfold reported. cbn [Scoreline.probability].
  apply round1_percent.
  pose proof (joint_nonneg hx ax c Hh Ha). pose proof (joint_le_1 hx ax c Hh Ha).
  lra.
Qed.

(** With a rate of at most 1, no goal count is more probable than 0. *)
Lemma pmf_le_pmf_0 (k : nat) (mu : R) :
  0 <= mu -> mu <= 1 -> Poisson.pmf k mu <= Poisson.pmf 0 mu.
Proof.
  intros H0 H1. unfold Poisson.pmf.
  pose proof (exp_pos (- mu)) as He.
  assert (Hp : 0 <= mu ^ k <= 1).
  { split; [now apply pow_le |].
    rewrite <- (pow1 k). apply pow_incr. lra. }
  assert (Hf : 0 < / INR (fact k) <= 1).
  { split; [apply Rinv_0_lt_compat, INR_fact_lt_0 |].
    rewrite <- Rinv_1. apply Rinv_le_contravar; [lra |].
    change 1 with (INR 1). apply le_INR.
    pose proof (lt_O_fact k). lia. }
  assert (Hpf : mu ^ k * / INR (fact k) <= 1) by nra.
  replace (exp (- mu) * mu ^ 0 / INR (fact 0)) with (exp (- mu) * 1)
    by (simpl; field).
  unfold Rdiv. rewrite Rmult_assoc.
  apply Rmult_le_compat_l; lra.
Qed.

Lemma joint_le_joint_00 (hx ax : R) (c : nat * nat) :
  0 <= hx -> hx <= 1 -> 0 <= ax -> ax <= 1 ->
  joint hx ax c <= joint hx ax (0%nat, 0%nat).
Proof.
  intros Hh0 Hh1 Ha0 Ha1. unfold joint. simpl.
  pose proof (pmf_le_pmf_0 (fst c) hx Hh0 Hh1).
  pose proof (pmf_le_pmf_0 (snd c) ax Ha0 Ha1).
  pose proof (pmf_nonneg (fst c) hx Hh0). pose proof (pmf_nonneg (snd c) ax Ha0).
  nra.
Qed.

End ScorelineMore.

Import ScorelineMore.

(** X13.  For non-negative rates the three reported scorelines are three
    different scores with both goal counts at most 5 (so the three texts
    differ), and every reported probability is in [0, 100]. *)
Theorem X13_scorelines_distinct (hx ax : R) :
  0 <= hx -> 0 <= ax ->
  exists c1 c2 c3,
    _predict_scorelines hx ax =
      [reported hx ax c1; reported hx ax c2; reported hx ax c3] /\
    ((fst c1 <= 5 /\ snd c1 <= 5) /\ (fst c2 <= 5 /\ snd c2 <= 5) /\
     (fst c3 <= 5 /\ snd c3 <= 5))%nat /\
    (c1 <> c2 /\ c1 <> c3 /\ c2 <> c3) /\
    NoDup (map Scoreline.scoreline (_predict_scorelines hx ax)) /\
    (forall s, In s (_predict_scorelines hx ax) ->
       0 <= Scoreline.probability s <= 100).
Proof.
  intros Hh Ha.
  pose proof (ranking_perm hx ax) as Hperm.
  pose proof (predict_scorelines_ranked hx ax) as Hres.
  destruct (ranking_shape hx ax) as (c1 & c2 & c3 & rest & Hs).
  rewrite Hs in Hperm, Hres. cbn [firstn map] in Hres.
  exists c1, c2, c3. split; [exact Hres |].
  assert (Hnd : NoDup (c1 :: c2 :: c3 :: rest)).
  { apply (Permutation_NoDup (Permutation_sym Hperm)), grid_NoDup. }
  assert (Hin : forall c, In c [c1; c2; c3] -> (fst c <= 5 /\ snd c <= 5)%nat).
  { intros [h a] Hc.
    assert (Hg : In (h, a) (grid 6)).
    { apply (Permutation_in _ Hperm). simpl in Hc |- *. tauto. }
    apply in_grid in Hg. simpl. lia. }
  assert (Hd : c1 <> c2 /\ c1 <> c3 /\ c2 <> c3).
  { inversion Hnd as [| ? ? N1 Hnd2]; subst.
    inversion Hnd2 as [| ? ? N2 _]; subst.
    simpl in N1, N2. repeat split; intros E; subst; tauto. }
  pose proof (Hin c1 ltac:(simpl; tauto)) as B1.
  pose proof (Hin c2 ltac:(simpl; tauto)) as B2.
  pose proof (Hin c3 ltac:(simpl; tauto)) as B3.
  split; [tauto |]. split; [exact Hd |]. rewrite Hres. split.
  - cbn [map]. destruct Hd as (D12 & D13 & D23).
    constructor.
    { simpl. intros [E | [E | []]];
        apply (scoreline_text_inj hx ax) in E; auto; congruence. }
    constructor.
    { simpl. intros [E | []].
      apply (scoreline_text_inj hx ax) in E; auto; congruence. }
    constructor; [simpl; tauto | constructor].
  - intros s [<- | [<- | [<- | []]]]; now apply reported_percent.
Qed.

Lemma X13_scorelines_distinct_witness :
  0 <= 1 /\ 0 <= 2 /\
  NoDup (map Scoreline.scoreline (_predict_scorelines 1 2)).
Proof.
  assert (H1 : 0 <= 1) by lra. assert (H2 : 0 <= 2) by lra.
  split; [exact H1 | split; [exact H2 |]].
  destruct (X13_scorelines_distinct 1 2 H1 H2) as (c1 & c2 & c3 & _ & _ & _ & Hnd & _).
  exact Hnd.
Defined.

(** X14.  When both rates are at most 1 (and non-negative) the first
    reported scoreline is "0-0". *)
Theorem X14_low_rates_goalless_first (hx ax : R) :
  0 <= hx -> hx <= 1 -> 0 <= ax -> ax <= 1 ->
  exists s2 s3,
    _predict_scorelines hx ax =
      [Scoreline.mk "0-0" (Py.round (Poisson.pmf 0 hx * Poisson.pmf 0 ax * 100) 1);
       s2; s3].
Proof.
  intros Hh0 Hh1 Ha0 Ha1.
  pose proof (ranking_perm hx ax) as Hperm.
  pose proof (ranking_sorted hx ax) as Hsorted.
  pose proof (predict_scorelines_ranked hx ax) as Hres.
  destruct (ranking_shape hx ax) as (c1 & c2 & c3 & rest & Hs).
  rewrite Hs in Hperm, Hsorted, Hres. cbn [firstn map] in Hres.
  assert (E : c1 = (0%nat, 0%nat)).
  { assert (Hin : In (0%nat, 0%nat) (c1 :: c2 :: c3 :: rest)).
    { apply (Permutation_in _ (Permutation_sym Hperm)), in_grid. lia. }
    destruct Hin as [E | Hin]; [exact E |].
    apply StronglySorted_inv in Hsorted. destruct Hsorted as [_ Hc1].
    rewrite Forall_forall in Hc1.
    destruct (Hc1 _ Hin) as [Hlt | [_ Hlex]].
    - pose proof (joint_le_joint_00 hx ax c1 Hh0 Hh1 Ha0 Ha1). lra.
    - unfold lex_lt in Hlex. simpl in Hlex. lia. }
  subst c1. exists (reported hx ax c2), (reported hx ax c3).
  exact Hres.
Qed.

Lemma X14_low_rates_goalless_first_witness :
  exists s2 s3,
    _predict_scorelines 1 (1 / 2) =
      [Scoreline.mk "0-0"
         (Py.round (Poisson.pmf 0 1 * Poisson.pmf 0 (1 / 2) * 100) 1); s2; s3].
Proof.
  apply (X14_low_rates_goalless_first 1 (1 / 2)); lra.
Defined.

(** *** The caller: the banner and the gauges of [app.py] *)

Module AppFacts.

(** The three win probabilities of the engine: percentages that add up to
    100 within 0.1. *)
Lemma win_probabilities_sum (hx ax : R) :
  0 <= hx -> 0 <= ax ->
  let w := _calculate_win_probabilities hx ax in
  0 <= WinProbs.home_win w <= 100 /\
  0 <= WinProbs.draw w <= 100 /\
  0 <= WinProbs.away_win w <= 100 /\
  99.9 <= WinProbs.home_win w + WinProbs.draw w + WinProbs.away_win w <= 100.1.
Proof.
  intros Hh Ha w. unfold w. rewrite win_probabilities_mass.
  cbn [WinProbs.home_win WinProbs.draw WinProbs.away_win].
  set (H := mass is_home_win (joint hx ax) (grid 8)).
  set (D := mass is_draw (joint hx ax) (grid 8)).
  set (A := mass is_away_win (joint hx ax) (grid 8)).
  assert (HH : 0 <= H) by (apply mass_nonneg; intros c; now apply joint_nonneg).
  assert (HD : 0 <= D) by (apply mass_nonneg; intros c; now apply joint_nonneg).
  assert (HA : 0 <= A) by (apply mass_nonneg; intros c; now apply joint_nonneg).
  assert (HT : 0 < H + D + A).
  { unfold H, D, A. rewrite mass_partition. now apply grid_total_pos. }
  split; [apply percent_range; lra |].
  split; [apply percent_range; lra |].
  split; [apply percent_range; lra |].
  assert (Hs : Rabs (Py.round (H / (H + D + A) * 100) 1
                     + Py.round (D / (H + D + A) * 100) 1
                     + Py.round (A / (H + D + A) * 100) 1 - 100) <= 0.1).
  { apply round1_sum3. field. lra. }
  revert Hs. unfold Rabs. destruct (Rcase_abs _); lra.
Qed.

Lemma max3_spec (a b c : R) :
  a <= App.max3 a b c /\ b <= App.max3 a b c /\ c <= App.max3 a b c /\
  (App.max3 a b c = a \/ App.max3 a b c = b \/ App.max3 a b c = c).
Proof.
  unfold App.max3.
  destruct (Rlt_dec a b); [destruct (Rlt_dec b c) | destruct (Rlt_dec a c)];
    repeat split; try lra; auto.
Qed.

End AppFacts.

Import AppFacts.

(** X15.  The banner of [main] shows the largest of the three win
    probabilities; ties go to the home side first and to the draw second:
    it is the home banner exactly when home win is at least draw and away
    win, the draw banner exactly when draw is above home win and at least
    away win, and the away banner exactly when away win is above both. *)
Theorem X15_banner (w : WinProbs.t) :
  let h := WinProbs.home_win w in
  let d := WinProbs.draw w in
  let a := WinProbs.away_win w in
  let o := fst (App.most_likely_outcome w) in
  let m := snd (App.most_likely_outcome w) in
  (h <= m /\ d <= m /\ a <= m) /\
  m = match o with App.HomeWin => h | App.Draw => d | App.AwayWin => a end /\
  (o = App.HomeWin <-> d <= h /\ a <= h) /\
  (o = App.Draw <-> h < d /\ a <= d) /\
  (o = App.AwayWin <-> h < a /\ d < a).
Proof.
  intros h d a o m. unfold o, m, App.most_likely_outcome.
  fold h d a.
  destruct (max3_spec h d a) as (Mh & Md & Ma & Mc).
  set (mx := App.max3 h d a) in *.
  destruct (Req_dec_T mx h) as [Eh | Nh]; cbn [fst snd].
  - repeat split; try lra; try discriminate; intros; lra.
  - destruct (Req_dec_T mx d) as [Ed | Nd]; cbn [fst snd].
    + repeat split; try lra; try discriminate; intros; lra.
    + assert (Ea : mx = a) by (destruct Mc as [E | [E | E]]; tauto).
      repeat split; try lra; try discriminate; intros; lra.
Qed.



(** X17.  On records within the ranges of the form the engine returns and
    every percentage it hands to the gauges, the bar and the cards is in
    [0, 100]: the three win probabilities, the BTTS probability, [over] and
    [under] of every threshold, and the probability of every scoreline. *)
Theorem X17_form_percentages (home away : TeamData) :
  App.in_form_range home -> App.in_form_range away ->
  exists p, predict_match_outcome home away = Some p /\
    0 <= WinProbs.home_win (win_probabilities p) <= 100 /\
    0 <= WinProbs.draw (win_probabilities p) <= 100 /\
    0 <= WinProbs.away_win (win_probabilities p) <= 100 /\
    0 <= Btts.probability (btts p) <= 100 /\
    (forall key e, In (key, e) (over_under p) ->
       0 <= OverUnder.over e <= 100 /\ 0 <= OverUnder.under e <= 100) /\
    (forall s, In s (scorelines p) -> 0 <= Scoreline.probability s <= 100).
Proof.
  intros Fh Fa.
  pose proof (in_form_range_valid home Fh) as Hh.
  pose proof (in_form_range_valid away Fa) as Ha.
  pose proof (predict_valid 1.15 home away Hh Ha) as Hp. cbv zeta in Hp.
  destruct (scalars_nonneg 1.15 home away ltac:(lra) Hh Ha) as [Nh Na].
  set (h := xg home * 1.15 * (1 / (defensive_score away + 0.5))) in *.
  set (a := xg away * (1 / (defensive_score home + 0.5))) in *.
  eexists. split; [exact Hp |].
  cbn [win_probabilities btts over_under scorelines].
  destruct (win_probabilities_sum h a Nh Na) as (Rh & Rd & Ra & _).
  split; [exact Rh |]. split; [exact Rd |]. split; [exact Ra |].
  split; [| split].
  - unfold _predict_btts. cbn [Btts.probability].
    destruct Hh as (_ & _ & _ & _ & _ & _ & _ & _ & Ch).
    destruct Ha as (_ & _ & _ & _ & _ & _ & _ & _ & Ca).
    pose proof (scoring_prob_range h Nh). pose proof (scoring_prob_range a Na).
    pose proof (def_factor_range _ Ch). pose proof (def_factor_range _ Ca).
    destruct (adjusted_range (1 - Poisson.pmf 0 h)
                (def_factor (xgot_conceded away))) as [P0 P1]; [lra | lra |].
    destruct (adjusted_range (1 - Poisson.pmf 0 a)
                (def_factor (xgot_conceded home))) as [Q0 Q1]; [lra | lra |].
    apply round1_percent. nra.
  - intros key e Hin. rewrite predict_over_under_items in Hin.
    assert (Hmu : 0 <= h + a) by lra.
    destruct Hin as [E | [E | [E | []]]]; inversion E; subst key e.
    + apply (over_under_entry_range _ 1.5 1%nat Hmu). simpl. lra.
    + apply (over_under_entry_range _ 2.5 2%nat Hmu). simpl. lra.
    + apply (over_under_entry_range _ 3.5 3%nat Hmu). simpl. lra.
  - intros s Hin. rewrite predict_scorelines_ranked in Hin.
    apply in_map_iff in Hin. destruct Hin as (c & <- & _).
    now apply reported_percent.
Qed.

Lemma X17_form_percentages_witness :
  exists p, predict_match_outcome default_home default_away = Some p /\
    0 <= Btts.probability (btts p) <= 100.
Proof.
  assert (Fh : App.in_form_range default_home).
  { unfold App.in_form_range, default_home; simpl. repeat split; lra. }
  assert (Fa : App.in_form_range default_away).
  { unfold App.in_form_range, default_away; simpl. repeat split; lra. }
  destruct (X17_form_percentages _ _ Fh Fa) as (p & Hp & _ & _ & _ & Hb & _).
  exists p. split; [exact Hp | exact Hb].
Defined.

(** *** Rounding of the expected-goals record, strength on the form *)

Module RoundingMore.

(** Rounding a sum and rounding its two terms differ by at most one unit of
    the last decimal. *)
Lemma round2_sum_gap (h a : R) :
  Rabs (Py.round (h + a) 2 - (Py.round h 2 + Py.round a 2)) <= 0.01.
Proof.
  unfold Py.round.
  pose proof (rint_bound (h * 10 ^ 2)) as Hh.
  pose proof (rint_bound (a * 10 ^ 2)) as Ha.
  pose proof (rint_bound ((h + a) * 10 ^ 2)) as Ht.
  set (kh := Py.rint (h * 10 ^ 2)) in *.
  set (ka := Py.rint (a * 10 ^ 2)) in *.
  set (kt := Py.rint ((h + a) * 10 ^ 2)) in *.
  simpl in *.
  assert (Hlo : (kh + ka - 1 <= kt)%Z).
  { assert (H : (kh + ka - 2 < kt)%Z); [| lia].
    apply lt_IZR. rewrite minus_IZR, plus_IZR. lra. }
  assert (Hhi : (kt <= kh + ka + 1)%Z).
  { assert (H : (kt < kh + ka + 2)%Z); [| lia].
    apply lt_IZR. rewrite !plus_IZR. lra. }
  apply IZR_le in Hlo, Hhi.
  rewrite minus_IZR, plus_IZR in Hlo. rewrite !plus_IZR in Hhi.
  apply Rabs_le. lra.
Qed.

Lemma offensive_score_form (d : TeamData) :
  App.in_form_range d -> 0 <= Spec.offensive_score d <= 6.56.
Proof.
  unfold App.in_form_range, Spec.offensive_score. intros H.
  decompose [and] H. lra.
Qed.

Lemma defensive_score_form (d : TeamData) :
  App.in_form_range d -> 0 < Spec.defensive_score d <= 4.9.
Proof.
  unfold App.in_form_range, Spec.defensive_score. intros H.
  decompose [and] H.
  destruct (reciprocal_term_range (xgot_conceded d)) as [R0 R1]; [assumption |].
  lra.
Qed.

End RoundingMore.

Import RoundingMore.

(** X18.  In binary64 itself: when [over_percentage] is the float [k / 10]
    for an integer [k] from 0 to 1000, and [under] is computed from it as
    on line 180 with [round(x, 1)] as [rint(x * 10) / 10],
    [over + under] evaluates to exactly [100.0]. *)
Theorem X18_binary64_complement (k : nat) :
  (k <= 1000)%nat ->
  PrimFloat.eqb (Binary64.over_plus_under k) 100%float = true.
Proof.
  intros Hk.
  pose proof binary64_over_plus_under as Hall.
  rewrite forallb_forall in Hall. apply Hall, in_seq. lia.
Qed.

Lemma X18_binary64_complement_witness :
  PrimFloat.eqb (Binary64.over_plus_under 567) 100%float = true.
Proof. apply X18_binary64_complement. lia. Defined.

(** X19.  Whenever the engine returns, the reported total expected goals
    differ from the sum of the reported home and away expected goals by at
    most 0.01. *)
Theorem X19_total_gap (home away : TeamData) (p : MatchPrediction) :
  predict_match_outcome home away = Some p ->
  Rabs (ExpectedGoals.total (expected_goals p)
        - (ExpectedGoals.home (expected_goals p)
           + ExpectedGoals.away (expected_goals p))) <= 0.01.
Proof.
  intros Hp.
  unfold predict_match_outcome, predict_match_outcome_with in Hp.
  destruct (expected_goal_scalars 1.15 home away) as [[h a] |];
    simpl in Hp; [| discriminate].
  injection Hp as <-.
  cbn [expected_goals ExpectedGoals.home ExpectedGoals.away ExpectedGoals.total].
  apply round2_sum_gap.
Qed.

Lemma X19_total_gap_witness :
  exists p, predict_match_outcome default_home default_away = Some p /\
    Rabs (ExpectedGoals.total (expected_goals p)
          - (ExpectedGoals.home (expected_goals p)
             + ExpectedGoals.away (expected_goals p))) <= 0.01.
Proof.
  pose proof (predict_valid 1.15 default_home default_away
                default_home_valid default_away_valid) as Hp.
  cbv zeta in Hp.
  eexists. split; [exact Hp |].
  exact (X19_total_gap _ _ _ Hp).
Defined.

(** X20.  On a record within the ranges of the form
    [calculate_team_strength] returns an offensive score in [0, 6.56] and a
    defensive score in (0, 4.9]. *)
Theorem X20_form_strength (d : TeamData) :
  App.in_form_range d ->
  exists o s, calculate_team_strength d = Some (o, s) /\
    0 <= o <= 6.56 /\ 0 < s <= 4.9.
Proof.
  intros Fd.
  exists (Spec.offensive_score d), (Spec.defensive_score d).
  split; [apply team_strength_valid, in_form_range_valid, Fd |].
  split; [now apply offensive_score_form | now apply defensive_score_form].
Qed.

Lemma X20_form_strength_witness :
  exists o s, calculate_team_strength default_home = Some (o, s) /\
    0 <= o <= 6.56 /\ 0 < s <= 4.9.
Proof.
  apply X20_form_strength.
  unfold App.in_form_range, default_home; simpl. repeat split; lra.
Defined.
